(** * web-frontend-mcp-demo: the session gateway and the tool-calling loops

    A shallow embedding of the backend ([backend/src/index.ts]: the
    [randomInt] tool, the transport registry and the [/mcp] routes) and of the
    frontend ([frontend/src/mcpClient.ts], [frontend/src/llm.ts]: the MCP
    client singleton and the three provider loops), with the properties the
    specification states about them. *)

From Stdlib Require Import ZArith QArith Qcanon.
From stdpp Require Import base option list strings gmap pretty.

Local Set Warnings "-register-all".
Local Open Scope Z_scope.
Local Open Scope string_scope.
Local Open Scope list_scope.

(** ** JavaScript values shared by both sides *)

(** JSON values.  Numbers are rationals: every finite JSON number is one, and
    [Number.isInteger] is a test on the denominator. *)
Inductive json :=
| JNull
| JBool (b : bool)
| JNum (q : Q)
| JStr (s : string)
| JArr (items : list json)
| JObj (fields : list (string * json)).

(** Thrown values.  [Error] is [new Error(message)]; the others are the
    built-in subclasses raised by the runtime itself. *)
Inductive Exn :=
| Error (message : string)
| TypeError (message : string)
| SyntaxError (message : string)
| RangeError (message : string).

Definition JInt (z : Z) : json := JNum (inject_Z z).

(** * Backend *)
Module Backend.

(** ** The [randomInt] tool *)

(** [z.number().int().optional().default(100)] applied to the [max] property
    of the arguments object ([None] is [undefined]). *)
Inductive ZodIssue :=
| invalid_type (expected : string)
| not_integer.

Definition isInteger (q : Q) : bool := Pos.eqb (Qden (Qred q)) 1.
Definition toZ (q : Q) : Z := Qnum (Qred q).

(** The arguments reach the schema as [JSON.parse] delivers them: a number
    literal has become the nearest double (ties to the even mantissa), or an
    infinity when it is too large.  The double nearest to [n/d > 0] is
    [m * 2^u], with [u] the exponent of the last mantissa bit (not below
    that of the subnormals) and [m] the scaled value rounded. *)
Inductive Parsed := Finite (d : Q) | Infinite.

(** [floor (log2 (n/d))] *)
Definition binary_exponent (n : Z) (d : positive) : Z :=
  let e := Z.log2 n - Z.log2 (Zpos d) in
  let below :=
    if (0 <=? e)%Z then (n <? 2 ^ e * Zpos d)%Z else (n * 2 ^ (- e) <? Zpos d)%Z in
  if below then e - 1 else e.

(** [n/d] rounded to the nearest integer, a tie to the even one. *)
Definition round_half_even (n d : Z) : Z :=
  let f := n / d in
  match (2 * (n mod d) ?= d)%Z with
  | Lt => f
  | Gt => f + 1
  | Eq => if Z.even f then f else f + 1
  end.

Definition nearest_double (n : Z) (d : positive) : Parsed :=
  let u := Z.max (binary_exponent n d - 52) (-1074) in
  if (u <=? 0)%Z then
    Finite (round_half_even (n * 2 ^ (- u)) (Zpos d) # Z.to_pos (2 ^ (- u)))
  else
    let m := round_half_even n (Zpos d * 2 ^ u) in
    if (2 ^ 1024 <=? m * 2 ^ u)%Z then Infinite else Finite (inject_Z (m * 2 ^ u)).

Definition JSON_number (q : Q) : Parsed :=
  match Qnum q with
  | Z0 => Finite 0
  | Zpos n => nearest_double (Zpos n) (Qden q)
  | Zneg n =>
      match nearest_double (Zpos n) (Qden q) with
      | Finite d => Finite (- d)
      | Infinite => Infinite
      end
  end.

(** [Number.isInteger] fails on an infinity as on a fraction. *)
Definition max_schema (v : option json) : ZodIssue + Z :=
  match v with
  | None => inr 100
  | Some (JNum q) =>
      match JSON_number q with
      | Finite d => if isInteger d then inr (toZ d) else inl not_integer
      | Infinite => inl not_integer
      end
  | Some _ => inl (invalid_type "number")
  end.

Record TextContent := { type : string; text : string }.
Record CallToolResult := { content : list TextContent }.

Inductive ToolError :=
| UnknownTool (name : string)
| InvalidArgument (issue : ZodIssue).

(** What a [tools/call] request ends in: refused by the server before the
    handler runs, an exception out of the handler, or the handler's result. *)
Inductive InvokeResult :=
| Rejected (e : ToolError)
| HandlerThrew (e : Exn)
| Completed (r : CallToolResult).

Section RandomIntTool.

(** [randomInt] of Node's [crypto] module, called with one argument: the
    generator is not part of the repository and is a parameter here. *)
Variable randomInt : Z -> Exn + Z.

(** [async ({ max = 100 }) => ({ content: [{ type: 'text', text: String(randomInt(max)) }] })] *)
Definition randomInt_handler (max : Z) : Exn + CallToolResult :=
  match randomInt max with
  | inl e => inl e
  | inr n => inr {| content := [ {| type := "text"; text := pretty n |} ] |}
  end.

(** A [tools/call] request as [McpServer] serves it: the server has the
    single tool ['randomInt'] registered; a call is dispatched on the tool
    name, its arguments are parsed with the tool's schema, and only then the
    handler runs. *)
Definition invoke (name : string) (args : gmap string json) : InvokeResult :=
  if String.eqb name "randomInt" then
    match max_schema (args !! "max") with
    | inl issue => Rejected (InvalidArgument issue)
    | inr max =>
        match randomInt_handler max with
        | inl e => HandlerThrew e
        | inr r => Completed r
        end
    end
  else Rejected (UnknownTool name).

End RandomIntTool.

(** [crypto.randomInt(max)] as Node documents it: the bound must be a safe
    integer above [min = 0] and the range at most [RAND_MAX = 2^48 - 1];
    the result is then [x % max] for the 48-bit draw [x] the generator
    accepts ([sample]).  The payload of an exception is the error's [code]. *)
Definition MAX_SAFE_INTEGER : Z := 9007199254740991.
Definition RAND_MAX : Z := 281474976710655.

Definition crypto_randomInt (sample max : Z) : Exn + Z :=
  if negb (Z.abs max <=? MAX_SAFE_INTEGER)%Z then inl (TypeError "ERR_INVALID_ARG_TYPE")
  else if (max <=? 0)%Z then inl (RangeError "ERR_OUT_OF_RANGE")
  else if (RAND_MAX <? max)%Z then inl (RangeError "ERR_OUT_OF_RANGE")
  else inr (sample mod max).

(** ** The transport registry *)

(** A [StreamableHTTPServerTransport]: its identity as an object and the
    constant its [sessionIdGenerator] returns. *)
Record Transport := { transport_ref : nat; sessionIdGenerator : string }.

(** The module state: the own properties of the [transports] object, the
    transports handed to [server.connect] (in order) and the number of
    transports constructed so far. *)
Record Gateway := {
  transports : gmap string Transport;
  connected : list Transport;
  constructed : nat
}.

Definition initial : Gateway :=
  {| transports := ∅; connected := []; constructed := 0 |}.

(** [transports] is created by the object literal [{}], so a property read
    that finds no own property continues in [Object.prototype]. *)
Definition Object_prototype : list string :=
  [ "constructor"; "__defineGetter__"; "__defineSetter__"; "hasOwnProperty";
    "__lookupGetter__"; "__lookupSetter__"; "isPrototypeOf";
    "propertyIsEnumerable"; "toString"; "valueOf"; "__proto__";
    "toLocaleString" ].

(** The value of [transports[k]] when it is not [undefined]. *)
Inductive Property :=
| Own (t : Transport)
| Inherited (name : string).

Definition get_property (o : gmap string Transport) (k : string) : option Property :=
  match o !! k with
  | Some t => Some (Own t)
  | None => if decide (k ∈ Object_prototype) then Some (Inherited k) else None
  end.

(** Objects and functions are truthy, [undefined] is not. *)
Definition truthy (v : option Property) : bool :=
  match v with Some _ => true | None => false end.

Definition getOrCreateTransport (sessionId : string) (g : Gateway)
  : option Property * Gateway :=
  let g' :=
    if negb (truthy (get_property (transports g) sessionId)) then
      let t := {| transport_ref := constructed g; sessionIdGenerator := sessionId |} in
      {| transports := <[sessionId := t]> (transports g);
         connected := connected g ++ [t];
         constructed := S (constructed g) |}
    else g in
  (get_property (transports g') sessionId, g').

(** ** The [/mcp] routes *)

Inductive Response :=
| Json (body : json) (status : Z)
| Forwarded (t : Transport) (sid : string) (session_header : option string)
| Threw (e : Exn).

Definition bad_session : json :=
  JObj [ ("jsonrpc", JStr "2.0");
         ("error", JObj [ ("code", JInt (-32000)); ("message", JStr "Bad Session") ]);
         ("id", JNull) ].

Definition not_a_function : Exn :=
  TypeError "transports[sid].handleRequest is not a function".

(** [(url.searchParams.get('session') || c.req.header('mcp-session-id')) ?? undefined] *)
Definition resolve_session (query header : option string) : option string :=
  match query with
  | Some q => if String.eqb q "" then header else Some q
  | None => header
  end.

Definition nonempty (sid : option string) : option string :=
  match sid with
  | Some s => if String.eqb s "" then None else Some s
  | None => None
  end.

(** [app.get('/mcp', ...)]: [query] is the [session] search parameter and
    [header] the [mcp-session-id] request header. *)
Definition get_mcp (query header : option string) (g : Gateway) : Response * Gateway :=
  match nonempty (resolve_session query header) with
  | None => (Json bad_session 400, g)
  | Some sid =>
      match get_property (transports g) sid with
      | None => (Json bad_session 400, g)
      | Some (Own t) => (Forwarded t sid None, g)
      | Some (Inherited _) => (Threw not_a_function, g)
      end
  end.

(** [app.post('/mcp', ...)]: [uuid] is what [randomUUID()] yields if it is
    called.  A generated identifier is announced in the response header. *)
Definition post_mcp (header : option string) (uuid : string) (g : Gateway)
  : Response * Gateway :=
  let sid := default "" header in
  let '(sid, announced) :=
    if String.eqb sid "" then (uuid, Some uuid) else (sid, None) in
  match getOrCreateTransport sid g with
  | (Some (Own t), g') => (Forwarded t sid announced, g')
  | (_, g') =>
      (Threw (TypeError "getOrCreateTransport(...).handleRequest is not a function"), g')
  end.

(** A request to the gateway, with what the environment contributes to
    handling it, and the gateway serving requests one after the other (a
    handler reads and writes the registry in one stretch of code without an
    [await] in it, so the handlers' accesses to it do not interleave). *)
Inductive Request :=
| POST (header : option string) (uuid : string)
| GET (query header : option string).

Definition handle (r : Request) (g : Gateway) : Response * Gateway :=
  match r with
  | POST header uuid => post_mcp header uuid g
  | GET query header => get_mcp query header g
  end.

Definition serve (rs : list Request) (g : Gateway) : Gateway :=
  foldl (fun g r => snd (handle r g)) g rs.

(** The registry and the server agree: what is stored under an identifier
    was connected and generates that identifier, what was connected is
    stored under the identifier it generates, and no transport was connected
    twice. *)
Definition registry_ok (g : Gateway) : Prop :=
  (forall sid t, transports g !! sid = Some t ->
     t ∈ connected g /\ sessionIdGenerator t = sid)
  /\ (forall t, t ∈ connected g ->
     transports g !! sessionIdGenerator t = Some t /\ (transport_ref t < constructed g)%nat)
  /\ NoDup (connected g).

End Backend.

(** * Frontend: the MCP client singleton ([mcpClient.ts]) *)
Module McpClient.

Record MCPClient := { client_ref : nat }.

(** The promise [client.connect(transport).then(() => client)]: the client
    it resolves to once the connection is up, and the endpoint of the
    [StreamableHTTPClientTransport] being connected. *)
Record Promise := { resolves_to : MCPClient; endpoint_url : string }.

(** Module state: [clientPromise] ([None] is [null]), the number of
    [MCPClient] objects constructed and the [connect] calls made, in order. *)
Record State := {
  clientPromise : option Promise;
  clients : nat;
  connects : list Promise
}.

Definition start : State :=
  {| clientPromise := None; clients := 0; connects := [] |}.

Section Environment.

(** [import.meta.env.VITE_MCP_ENDPOINT], fixed when the bundle is built,
    and whether [new URL(_)] accepts a string. *)
Variable VITE_MCP_ENDPOINT : option string.
Variable URL_parses : string -> bool.

(** The body runs without suspending up to its [return], so a call is one
    atomic step on the module state.  The result is what the function
    returns (the promise the caller awaits) or what it throws. *)
Definition getMcpClient (s : State) : (Exn + Promise) * State :=
  match clientPromise s with
  | Some p => (inr p, s)
  | None =>
      let client := {| client_ref := clients s |} in
      let s1 := {| clientPromise := None; clients := S (clients s); connects := connects s |} in
      match VITE_MCP_ENDPOINT with
      | None => (inl (Error "VITE_MCP_ENDPOINT is not defined"), s1)
      | Some endpoint =>
          if String.eqb endpoint "" then
            (inl (Error "VITE_MCP_ENDPOINT is not defined"), s1)
          else if URL_parses endpoint then
            let p := {| resolves_to := client; endpoint_url := endpoint |} in
            (inr p, {| clientPromise := Some p;
                       clients := S (clients s);
                       connects := connects s ++ [p] |})
          else (inl (TypeError "Invalid URL"), s1)
      end
  end.

(** [k] calls in a row: the results, oldest first, and the final state. *)
Fixpoint calls (k : nat) (s : State) : list (Exn + Promise) * State :=
  match k with
  | O => ([], s)
  | S k =>
      let '(r, s1) := getMcpClient s in
      let '(rs, s2) := calls k s1 in
      (r :: rs, s2)
  end.

End Environment.

(** The stored promise, if any, is the only connection ever started. *)
Definition singleton_ok (s : State) : Prop :=
  match clientPromise s with
  | None => connects s = []
  | Some p => connects s = [p]
  end.

End McpClient.

(** * Frontend: the provider loops ([llm.ts]) *)
Module Llm.

(** ** What the loops talk to *)

(** What [client.callTool] resolves to, as far as [callRandomIntTool] reads
    it: [out.content] and the [text] of its items, each possibly absent. *)
Record ContentItem := { item_text : option string }.
Record CallToolOutput := { out_content : option (list ContentItem) }.

(** A JavaScript number as [Number(_)] produces it. *)
Inductive JSNumber := Num (q : Q) | NaN.

(** The collaborators the loops call into: [JSON.parse], [Number], and the
    MCP client ([callTool n args] is what the [n]-th tool call of a run, with
    arguments [args], ends in: [getMcpClient] or [client.callTool] failing,
    or the tool's output).  Arguments may be [undefined] ([None]).  Tool
    calls started together settle in an order the host decides:
    [settles_first es] is the position, among the calls that fail with
    [es] (in the order they were started), of the one that fails first. *)
Class Host := {
  JSON_parse : string -> Exn + json;
  Number : string -> JSNumber;
  callTool : nat -> option json -> Exn + CallToolOutput;
  settles_first : list Exn -> nat
}.

(** A vendor's reply to one [fetch]: the request failing, a non-2xx status
    with its body text, or the decoded JSON body. *)
Inductive Fetched (A : Type) :=
| NetworkError (e : Exn)
| HttpError (body : string)
| Ok (res : A).
Arguments NetworkError {A} e.
Arguments HttpError {A} body.
Arguments Ok {A} res.

(** How a run ends.  A run is driven by a script of vendor replies;
    [Pending] is the loop suspended in a [fetch] whose request went out and
    for which the script has no reply. *)
Inductive Outcome :=
| Returned (answer : string)
| Thrown (e : Exn)
| Pending.

(** What a run does that is visible outside: requests sent to the vendor
    and tool calls started, in order. *)
Inductive Event (Req : Type) :=
| Fetch (request : Req)
| ToolCall (args : option json).
Arguments Fetch {Req} request.
Arguments ToolCall {Req} args.

Record Run (Req : Type) := { trace : list (Event Req); outcome : Outcome }.
Arguments trace {Req} r.
Arguments outcome {Req} r.

Definition finish {Req} (o : Outcome) : Run Req := {| trace := []; outcome := o |}.
Definition emit {Req} (e : Event Req) (r : Run Req) : Run Req :=
  {| trace := e :: trace r; outcome := outcome r |}.
Definition emits {Req} (es : list (Event Req)) (r : Run Req) : Run Req :=
  {| trace := es ++ trace r; outcome := outcome r |}.

Definition is_tool_call {Req} (e : Event Req) : bool :=
  match e with ToolCall _ => true | Fetch _ => false end.

(** The tool calls and the vendor requests of a trace. *)
Definition tool_calls_of {Req} (es : list (Event Req)) : list (option json) :=
  omap (fun e => match e with ToolCall a => Some a | Fetch _ => None end) es.
Definition requests_of {Req} (es : list (Event Req)) : list Req :=
  omap (fun e => match e with Fetch r => Some r | ToolCall _ => None end) es.

(** The UI's message type. *)
Record ChatMessage := { role : string; content : string }.

(** [apiKey] read from the environment: absent and empty are both falsy. *)
Definition missing (apiKey : option string) : bool :=
  match apiKey with
  | None => true
  | Some k => String.eqb k ""
  end.

(** [a || "(no response)"] on a string. *)
Definition or_placeholder (a : string) : string :=
  if String.eqb a "" then "(no response)" else a.

Section Loops.

Context {host : Host}.

(** [callRandomIntTool], as the [n]-th tool call of the run. *)
Definition callRandomIntTool (n : nat) (args : option json) : Exn + string :=
  match callTool n args with
  | inl e => inl e
  | inr out =>
      inr match out_content out with
          | Some (item :: _) => default "" (item_text item)
          | _ => ""
          end
  end.

(** ** OpenAI *)

Record OpenAIToolCall := {
  call_id : string;
  function_name : string;
  function_arguments : string
}.

(** [res.choices[0].message]: [content] may be [null], [tool_calls] may be
    absent (the empty list here: both have a falsy [length]). *)
Record OpenAIMessage := {
  msg_content : option string;
  msg_tool_calls : list OpenAIToolCall
}.

(** [res.choices], each with its [message] when it has one. *)
Record OpenAIResponse := { choices : list (option OpenAIMessage) }.

(** The elements of [req]. *)
Inductive OpenAIEntry :=
| OPlain (role content : string)
| OAssistant (msg : OpenAIMessage)
| OTool (content : string) (tool_call_id : string).

(** One turn of the [while (true)] body after the [fetch]: either the next
    value of [req] or the end of the run. *)
Definition openai_turn (req : list OpenAIEntry) (n : nat) (r : Fetched OpenAIResponse)
  : list (Event (list OpenAIEntry)) * (Outcome + list OpenAIEntry) :=
  match r with
  | NetworkError e => ([], inl (Thrown e))
  | HttpError body => ([], inl (Thrown (Error body)))
  | Ok res =>
      match mjoin (head (choices res)) with
      | None => ([], inl (Thrown (Error "No response from OpenAI")))
      | Some msg =>
          let answer := inl (Returned (default "(no response)" (msg_content msg))) in
          match msg_tool_calls msg with
          | call :: _ =>
              if String.eqb (function_name call) "randomInt" then
                let text := function_arguments call in
                match JSON_parse (if String.eqb text "" then "{}" else text) with
                | inl e => ([], inl (Thrown e))
                | inr args =>
                    match callRandomIntTool n (Some args) with
                    | inl e => ([ToolCall (Some args)], inl (Thrown e))
                    | inr rand =>
                        ([ToolCall (Some args)],
                         inr (req ++ [OAssistant msg; OTool rand (call_id call)]))
                    end
                end
              else ([], answer)
          | [] => ([], answer)
          end
      end
  end.

Fixpoint openai_loop (script : list (Fetched OpenAIResponse))
    (req : list OpenAIEntry) (n : nat) : Run (list OpenAIEntry) :=
  emit (Fetch req)
    match script with
    | [] => finish Pending
    | r :: script =>
        match openai_turn req n r with
        | (es, inl o) => emits es (finish o)
        | (es, inr req') => emits es (openai_loop script req' (n + length es))
        end
    end.

Definition chatWithOpenAITools (apiKey : option string)
    (userPrompt : string) (history : list ChatMessage)
    (script : list (Fetched OpenAIResponse)) : Run (list OpenAIEntry) :=
  if missing apiKey then finish (Thrown (Error "VITE_OPENAI_API_KEY is not set"))
  else
    openai_loop script
      ([OPlain "system" "You are a helpful assistant."]
         ++ map (fun m => OPlain (role m) (content m)) history
         ++ [OPlain "user" userPrompt])
      0.

(** ** Gemini *)

Record FunctionCall := { fc_name : string; fc_args : option json }.

(** A part of a candidate: [text] and [functionCall], each possibly
    absent. *)
Record GeminiPart := {
  part_text : option string;
  functionCall : option FunctionCall
}.

(** [cand.content?.parts] *)
Record Candidate := { content_parts : option (list GeminiPart) }.
Record GeminiResponse := { candidates : list Candidate }.

(** The elements of [req]: a text message, the echoed function-call part,
    and the function response. *)
Inductive GeminiEntry :=
| GPlain (role text : string)
| GModel (fc : GeminiPart)
| GTool (name : string) (value : JSNumber).

(** [parts.find((p) => p.functionCall)], with the call it carries. *)
Fixpoint find_functionCall (parts : list GeminiPart) : option (GeminiPart * FunctionCall) :=
  match parts with
  | [] => None
  | p :: parts =>
      match functionCall p with
      | Some call => Some (p, call)
      | None => find_functionCall parts
      end
  end.

Definition has_text (p : GeminiPart) : bool :=
  match part_text p with
  | Some t => negb (String.eqb t "")
  | None => false
  end.

(** [parts.filter(p => p.text).map(p => p.text).join("")] *)
Definition gemini_text (parts : list GeminiPart) : string :=
  String.concat "" (map (fun p => default "" (part_text p)) (List.filter has_text parts)).

Definition gemini_turn (req : list GeminiEntry) (n : nat) (r : Fetched GeminiResponse)
  : list (Event (list GeminiEntry)) * (Outcome + list GeminiEntry) :=
  match r with
  | NetworkError e => ([], inl (Thrown e))
  | HttpError body => ([], inl (Thrown (Error body)))
  | Ok res =>
      match head (candidates res) with
      | None => ([], inl (Thrown (Error "No response from Gemini")))
      | Some cand =>
          let parts := default [] (content_parts cand) in
          let answer := inl (Returned (or_placeholder (gemini_text parts))) in
          match find_functionCall parts with
          | Some (fc, call) =>
              if String.eqb (fc_name call) "randomInt" then
                match callRandomIntTool n (fc_args call) with
                | inl e => ([ToolCall (fc_args call)], inl (Thrown e))
                | inr rand =>
                    ([ToolCall (fc_args call)],
                     inr (req ++ [GModel fc; GTool "randomInt" (Number rand)]))
                end
              else ([], answer)
          | None => ([], answer)
          end
      end
  end.

Fixpoint gemini_loop (script : list (Fetched GeminiResponse))
    (req : list GeminiEntry) (n : nat) : Run (list GeminiEntry) :=
  emit (Fetch req)
    match script with
    | [] => finish Pending
    | r :: script =>
        match gemini_turn req n r with
        | (es, inl o) => emits es (finish o)
        | (es, inr req') => emits es (gemini_loop script req' (n + length es))
        end
    end.

Definition chatWithGeminiTools (apiKey : option string)
    (userPrompt : string) (history : list ChatMessage)
    (script : list (Fetched GeminiResponse)) : Run (list GeminiEntry) :=
  if missing apiKey then finish (Thrown (Error "VITE_GEMINI_API_KEY is not set"))
  else
    gemini_loop script
      (map (fun m => GPlain (role m) (content m)) history ++ [GPlain "user" userPrompt])
      0.

(** ** Claude *)

(** A content block of a response, by its [type]. *)
Inductive ClaudeBlock :=
| BText (text : string)
| BToolUse (id name : string) (input : json)
| BOther (type : string).

Record ClaudeResponse := {
  res_content : option (list ClaudeBlock);
  stop_reason : string
}.

Record ToolUse := { use_id : string; use_name : string; use_input : json }.
Record ToolResult := { tool_use_id : string; result_content : string }.

(** The elements of [claudeMsgs]: a text message, the echoed response
    content, and the tool results (an entry is [undefined] where the
    mapped function returned nothing). *)
Inductive ClaudeEntry :=
| CPlain (role text : string)
| CAssistant (parts : list ClaudeBlock)
| CUser (toolResults : list (option ToolResult)).

(** [parts.filter((b) => b.type === "tool_use")] *)
Definition tool_uses (parts : list ClaudeBlock) : list ToolUse :=
  omap (fun b =>
          match b with
          | BToolUse id name input =>
              Some {| use_id := id; use_name := name; use_input := input |}
          | _ => None
          end) parts.

(** [parts.filter((p) => p.type === "text").map((p) => p.text).join("")] *)
Definition claude_text (parts : list ClaudeBlock) : string :=
  String.concat "" (omap (fun b => match b with BText t => Some t | _ => None end) parts).

(** [toolUses.map(async (u) => ...)]: every mapped function is started, in
    block order, so every [randomInt] block issues its tool call whatever
    happens to the others; each promise ends in an exception or in the
    value the function returns. *)
Fixpoint start_tool_uses (uses : list ToolUse) (n : nat)
  : list (Event (list ClaudeEntry)) * list (Exn + option ToolResult) :=
  match uses with
  | [] => ([], [])
  | u :: uses =>
      if String.eqb (use_name u) "randomInt" then
        let r :=
          match callRandomIntTool n (Some (use_input u)) with
          | inl e => inl e
          | inr rand => inr (Some {| tool_use_id := use_id u; result_content := rand |})
          end in
        let '(es, rs) := start_tool_uses uses (S n) in
        (ToolCall (Some (use_input u)) :: es, r :: rs)
      else
        let '(es, rs) := start_tool_uses uses n in
        (es, inr None :: rs)
  end.

(** [Promise.all]: all the values in order, or a rejection.  When several
    promises reject, the one reported is the first to reject in time, not
    the first in block order. *)
Definition rejections {A} (rs : list (Exn + A)) : list Exn :=
  omap (fun r => match r with inl e => Some e | inr _ => None end) rs.
Definition fulfilments {A} (rs : list (Exn + A)) : list A :=
  omap (fun r => match r with inl _ => None | inr a => Some a end) rs.

Definition promise_all {A} (rs : list (Exn + A)) : Exn + list A :=
  match rejections rs with
  | [] => inr (fulfilments rs)
  | e :: es => inl (nth (settles_first (e :: es)) (e :: es) e)
  end.

(** [toolUses.filter((u) => !validResults.find((v) => v.tool_use_id === u.id))] *)
Definition unhandled_uses (uses : list ToolUse) (validResults : list ToolResult)
  : list ToolUse :=
  List.filter
    (fun u => negb (existsb (fun v => String.eqb (tool_use_id v) (use_id u)) validResults))
    uses.

Definition claude_turn (claudeMsgs : list ClaudeEntry) (n : nat) (r : Fetched ClaudeResponse)
  : list (Event (list ClaudeEntry)) * (Outcome + list ClaudeEntry) :=
  match r with
  | NetworkError e => ([], inl (Thrown e))
  | HttpError body => ([], inl (Thrown (Error body)))
  | Ok res =>
      let parts := default [] (res_content res) in
      if String.eqb (stop_reason res) "tool_use" then
        let toolUses := tool_uses parts in
        match toolUses with
        | [] => ([], inl (Thrown (Error "tool_use block missing")))
        | _ =>
            let '(es, promises) := start_tool_uses toolUses n in
            match promise_all promises with
            | inl e => (es, inl (Thrown e))
            | inr toolResults =>
                let validResults := omap id toolResults in
                let unhandled := unhandled_uses toolUses validResults in
                match unhandled with
                | _ :: _ =>
                    (es, inl (Thrown (Error ("Unhandled tool(s): " +:+
                                        String.concat ", " (map use_name unhandled)))))
                | [] =>
                    (es, inr (claudeMsgs ++ [CAssistant parts; CUser toolResults]))
                end
            end
        end
      else ([], inl (Returned (or_placeholder (claude_text parts))))
  end.

(** [for (let depth = 0; depth < 3; depth++) { ... }] followed by the
    [throw]; [hops] is the number of iterations left. *)
Fixpoint claude_loop (hops : nat) (script : list (Fetched ClaudeResponse))
    (claudeMsgs : list ClaudeEntry) (n : nat) : Run (list ClaudeEntry) :=
  match hops with
  | O => finish (Thrown (Error "Too many tool-calling hops"))
  | S hops =>
      emit (Fetch claudeMsgs)
        match script with
        | [] => finish Pending
        | r :: script =>
            match claude_turn claudeMsgs n r with
            | (es, inl o) => emits es (finish o)
            | (es, inr claudeMsgs') =>
                emits es (claude_loop hops script claudeMsgs' (n + length es))
            end
        end
  end.

Definition chatWithClaudeTools (apiKey : option string)
    (userPrompt : string) (history : list ChatMessage)
    (script : list (Fetched ClaudeResponse)) : Run (list ClaudeEntry) :=
  if missing apiKey then finish (Thrown (Error "VITE_CLAUDE_API_KEY is not set"))
  else
    claude_loop 3 script
      (map (fun m => CPlain (role m) (content m)) history ++ [CPlain "user" userPrompt])
      0.

End Loops.

(** Whether a [tool_use] block asks for the one tool the loop knows. *)
Definition names_randomInt (u : ToolUse) : bool := String.eqb (use_name u) "randomInt".

(** How an entry of [toolResults] relates to the [tool_use] block at the same
    position: a result bears the identifier of its block and is there only
    for a [randomInt] block; [undefined] stands for any other block. *)
Definition answers (u : ToolUse) (r : option ToolResult) : Prop :=
  match r with
  | Some v => use_name u = "randomInt" /\ tool_use_id v = use_id u
  | None => use_name u <> "randomInt"
  end.

End Llm.

(** * Concrete collaborators and scripts used in the examples *)
Module Scenarios.
Import Llm.

(** A generator in the style of [crypto.randomInt]: it refuses a bound that
    is not positive and otherwise yields a value below the bound (here always
    the largest one). *)
Definition largest_below (max : Z) : Exn + Z :=
  if (0 <? max)%Z then inr (max - 1)
  else inl (RangeError "The value of max is out of range").

(** A host whose parser only knows the empty object and whose tool always
    answers ["7"]. *)
Definition seven : Host := {|
  JSON_parse := fun s => if String.eqb s "{}" then inr (JObj []) else inl (SyntaxError s);
  Number := fun _ => Num (inject_Z 7);
  callTool := fun _ _ => inr {| out_content := Some [ {| item_text := Some "7" |} ] |};
  settles_first := fun _ => 0%nat
|}.

(** Vendor replies. *)
Definition openai_call (id name : string) : OpenAIToolCall :=
  {| call_id := id; function_name := name; function_arguments := "{}" |}.

Definition openai_asks (calls : list OpenAIToolCall) : Fetched OpenAIResponse :=
  Ok {| choices := [ Some {| msg_content := None; msg_tool_calls := calls |} ] |}.

Definition openai_says (text : option string) : Fetched OpenAIResponse :=
  Ok {| choices := [ Some {| msg_content := text; msg_tool_calls := [] |} ] |}.

Definition gemini_call (name : string) : GeminiPart :=
  {| part_text := None;
     functionCall := Some {| fc_name := name; fc_args := Some (JObj []) |} |}.

Definition gemini_replies (parts : list GeminiPart) : Fetched GeminiResponse :=
  Ok {| candidates := [ {| content_parts := Some parts |} ] |}.

Definition gemini_says (text : string) : Fetched GeminiResponse :=
  gemini_replies [ {| part_text := Some text; functionCall := None |} ].

Definition claude_asks (blocks : list ClaudeBlock) : Fetched ClaudeResponse :=
  Ok {| res_content := Some blocks; stop_reason := "tool_use" |}.

Definition claude_says (text : string) : Fetched ClaudeResponse :=
  Ok {| res_content := Some [ BText text ]; stop_reason := "end_turn" |}.

(** Four tool requests in a row, then an answer. *)
Definition openai_four : list (Fetched OpenAIResponse) :=
  [ openai_asks [ openai_call "call_1" "randomInt" ];
    openai_asks [ openai_call "call_2" "randomInt" ];
    openai_asks [ openai_call "call_3" "randomInt" ];
    openai_asks [ openai_call "call_4" "randomInt" ];
    openai_says (Some "done") ].

Definition gemini_four : list (Fetched GeminiResponse) :=
  [ gemini_replies [ gemini_call "randomInt" ];
    gemini_replies [ gemini_call "randomInt" ];
    gemini_replies [ gemini_call "randomInt" ];
    gemini_replies [ gemini_call "randomInt" ];
    gemini_says "done" ].

Definition claude_four : list (Fetched ClaudeResponse) :=
  [ claude_asks [ BToolUse "toolu_1" "randomInt" (JObj []) ];
    claude_asks [ BToolUse "toolu_2" "randomInt" (JObj []) ];
    claude_asks [ BToolUse "toolu_3" "randomInt" (JObj []) ];
    claude_asks [ BToolUse "toolu_4" "randomInt" (JObj []) ];
    claude_says "done" ].

(** The three loops on a fresh conversation, with the host [seven]. *)
Definition openai (script : list (Fetched OpenAIResponse)) : Run (list OpenAIEntry) :=
  chatWithOpenAITools (host := seven) (Some "sk-test") "pick a number" [] script.

Definition gemini (script : list (Fetched GeminiResponse)) : Run (list GeminiEntry) :=
  chatWithGeminiTools (host := seven) (Some "g-test") "pick a number" [] script.

Definition claude (script : list (Fetched ClaudeResponse)) : Run (list ClaudeEntry) :=
  chatWithClaudeTools (host := seven) (Some "c-test") "pick a number" [] script.

End Scenarios.

(** * Frontend: the chat component ([App.tsx]) *)
Module App.
Import Llm.

Inductive Provider := OPENAI | GEMINI.

(** The component's state: the [useState] cells. *)
Record State := {
  provider : Provider;
  messages : list ChatMessage;
  input : string;
  loading : bool
}.

(** [err.message] *)
Definition message (err : Exn) : string :=
  match err with
  | Error m | TypeError m | SyntaxError m | RangeError m => m
  end.

(** What the environment holds when a handler runs: the API keys and what
    each vendor is going to reply. *)
Record World := {
  VITE_OPENAI_API_KEY : option string;
  VITE_GEMINI_API_KEY : option string;
  openai_script : list (Fetched OpenAIResponse);
  gemini_script : list (Fetched GeminiResponse)
}.

(** The run behind a call of [chatDispatcher]. *)
Inductive Dispatched :=
| ViaOpenAI (r : Run (list OpenAIEntry))
| ViaGemini (r : Run (list GeminiEntry)).

Definition result (d : Dispatched) : Outcome :=
  match d with
  | ViaOpenAI r => outcome r
  | ViaGemini r => outcome r
  end.

Section Component.

Context {host : Host}.

(** [String.prototype.trim] *)
Variable trim : string -> string.

(** [provider === "OPENAI" ? chatWithOpenAITools(prompt, messages)
                           : chatWithGeminiTools(prompt, messages)],
    with the [messages] of the render the callback was created in. *)
Definition chatDispatcher (world : World) (st : State) (prompt : string) : Dispatched :=
  match provider st with
  | OPENAI =>
      ViaOpenAI (chatWithOpenAITools (VITE_OPENAI_API_KEY world) prompt (messages st)
                   (openai_script world))
  | GEMINI =>
      ViaGemini (chatWithGeminiTools (VITE_GEMINI_API_KEY world) prompt (messages st)
                   (gemini_script world))
  end.

(** [handleSubmit]: the state once the handler has run as far as it can, and
    the run it started, if any.  While the run is pending the handler is
    suspended in its [await], after the first three state updates. *)
Definition handleSubmit (world : World) (st : State) : State * option Dispatched :=
  if String.eqb (trim (input st)) "" then (st, None)
  else
    let asked := messages st ++ [ {| role := "user"; content := input st |} ] in
    let d := chatDispatcher world st (input st) in
    let settled (reply : string) :=
      {| provider := provider st;
         messages := asked ++ [ {| role := "assistant"; content := reply |} ];
         input := "";
         loading := false |} in
    match result d with
    | Returned aiContent => (settled aiContent, Some d)
    | Thrown err => (settled ("Error: " +:+ message err), Some d)
    | Pending =>
        ({| provider := provider st; messages := asked; input := ""; loading := true |},
         Some d)
    end.

(** [handleMcpRandomInt]: the text of the alert it raises. *)
Definition handleMcpRandomInt : string :=
  match callRandomIntTool 0 (Some (JObj [])) with
  | inr result => "Random: " +:+ result
  | inl err => "MCP error: " +:+ message err
  end.

(** Typing a text into the box and submitting it, once for each element of
    [turns], each in the world it meets and once the previous handler has
    run. *)
Fixpoint submit_all (turns : list (World * string)) (st : State) : State :=
  match turns with
  | [] => st
  | (world, text) :: turns =>
      submit_all turns
        (fst (handleSubmit world {| provider := provider st; messages := messages st;
                                    input := text; loading := loading st |}))
  end.

End Component.

(** Roles alternate, starting with the user's. *)
Fixpoint alternates (expected : string) (ms : list ChatMessage) : Prop :=
  match ms with
  | [] => True
  | m :: ms =>
      role m = expected
      /\ alternates (if String.eqb expected "user" then "assistant" else "user") ms
  end.

End App.

(** * Measures and samples used in the statements below *)
Module Samples.
Import Backend Llm.

Definition is_post (r : Request) : bool :=
  match r with POST _ _ => true | GET _ _ => false end.

(** The registry holds as many transports as were constructed, and as many
    were connected. *)
Definition accounted (g : Gateway) : Prop :=
  length (connected g) = constructed g /\ size (transports g) = constructed g.

(** The [text] of a plain entry of each conversation, with its role. *)
Definition openai_plain (m : ChatMessage) : OpenAIEntry := OPlain (role m) (content m).
Definition gemini_plain (m : ChatMessage) : GeminiEntry := GPlain (role m) (content m).
Definition claude_plain (m : ChatMessage) : ClaudeEntry := CPlain (role m) (content m).

(** A host whose tool never answers. *)
Definition offline : Host := {|
  JSON_parse := fun s => if String.eqb s "{}" then inr (JObj []) else inl (SyntaxError s);
  Number := fun _ => NaN;
  callTool := fun _ _ => inl (Error "fetch failed");
  settles_first := fun es => pred (length es)
|}.

(** [trim] on the strings the samples use: leading spaces go. *)
Fixpoint strip_spaces (s : string) : string :=
  match s with
  | String a rest => if Ascii.eqb a (Ascii.ascii_of_nat 32) then strip_spaces rest else s
  | EmptyString => s
  end.

(** A world where both vendors answer at once. *)
Definition talkative : App.World := {|
  App.VITE_OPENAI_API_KEY := Some "sk-test";
  App.VITE_GEMINI_API_KEY := Some "g-test";
  App.openai_script := [ Scenarios.openai_says (Some "ok") ];
  App.gemini_script := [ Scenarios.gemini_says "ok" ]
|}.

(** The submitted texts that are not blank. *)
Definition submitted (trim : string -> string) (turns : list (App.World * string))
  : list string :=
  List.filter (fun text => negb (String.eqb (trim text) "")) (map snd turns).

End Samples.

(** * Properties of the backend *)
Module BackendProps.
Import Backend.

(** ** Numbers as the schema receives them *)

Lemma Qred_inject_Z (z : Z) : Qred (inject_Z z) = inject_Z z.
Proof.
  apply Qred_identity. simpl. apply Z.gcd_1_r.
Qed.

Lemma round_half_even_whole (n : Z) : round_half_even n 1 = n.
Proof.
  unfold round_half_even. by rewrite Z.mod_1_r, Z.div_1_r.
Qed.

Lemma nearest_double_safe (p : positive) :
  Zpos p <= MAX_SAFE_INTEGER ->
  exists d, nearest_double (Zpos p) 1 = Finite d /\ d == inject_Z (Zpos p).
Proof.
  unfold MAX_SAFE_INTEGER. intros Hp. unfold nearest_double, binary_exponent.
  change (Z.log2 1) with 0. rewrite Z.sub_0_r.
  assert (H0 : 0 <= Z.log2 (Zpos p)) by apply Z.log2_nonneg.
  assert (H1 : Z.log2 (Zpos p) < 53).
  { apply Z.log2_lt_pow2; [lia|]. change (2 ^ 53) with 9007199254740992. lia. }
  destruct (Z.log2_spec (Zpos p) ltac:(lia)) as [Hlo _].
  destruct (Z.leb_spec 0 (Z.log2 (Zpos p))) as [_|]; [|lia].
  destruct (Z.ltb_spec (Zpos p) (2 ^ Z.log2 (Zpos p) * 1)) as [|_]; [lia|].
  set (e := Z.log2 (Zpos p)) in *.
  replace (Z.max (e - 52) (-1074)) with (e - 52) by lia.
  destruct (Z.leb_spec (e - 52) 0) as [_|]; [|lia].
  rewrite round_half_even_whole.
  eexists. split; [reflexivity|].
  unfold Qeq, inject_Z. cbn [Qnum Qden].
  rewrite Z2Pos.id by (apply Z.pow_pos_nonneg; lia). ring.
Qed.

(** A safe integer is its own double. *)
Lemma JSON_number_safe (z : Z) :
  Z.abs z <= MAX_SAFE_INTEGER ->
  exists d, JSON_number (inject_Z z) = Finite d /\ d == inject_Z z.
Proof.
  intros Hz. unfold JSON_number. destruct z as [|p|p]; simpl Qnum; simpl Qden.
  - exists 0%Q. by split.
  - apply nearest_double_safe. lia.
  - destruct (nearest_double_safe p ltac:(lia)) as (d & -> & Hd).
    exists (- d)%Q. split; [reflexivity|]. by rewrite Hd.
Qed.

(** Past the safe integers the literal and the number received differ. *)
Example JSON_number_rounds :
  JSON_number (inject_Z 9007199254740993) = Finite (inject_Z 9007199254740992)
  /\ JSON_number (inject_Z 9007199254740995) = Finite (inject_Z 9007199254740996)
  /\ (exists d, JSON_number (1 + (1 # 10000000000000000000)) = Finite d /\ Qred d = 1%Q)
  /\ JSON_number (inject_Z (10 ^ 400)) = Infinite.
Proof.
  split; [by vm_compute|]. split; [by vm_compute|]. split; [|by vm_compute].
  eexists. split; [by vm_compute | by vm_compute].
Qed.

(** ** Argument validation *)

Lemma integer_received (d : Q) (z : Z) :
  d == inject_Z z -> isInteger d = true /\ toZ d = z.
Proof.
  intros Hd. apply Qred_complete in Hd. rewrite Qred_inject_Z in Hd.
  unfold isInteger, toZ. by rewrite Hd.
Qed.

Lemma max_schema_integer (z : Z) :
  Z.abs z <= MAX_SAFE_INTEGER -> max_schema (Some (JInt z)) = inr z.
Proof.
  intros Hz. unfold max_schema, JInt.
  destruct (JSON_number_safe z Hz) as (d & -> & Hd).
  destruct (integer_received d z Hd) as [-> ->]. reflexivity.
Qed.

Lemma max_schema_absent : max_schema None = inr 100.
Proof. reflexivity. Qed.

(** A number whose double is not an integer is refused by the schema. *)
Lemma max_schema_fraction (q d : Q) :
  JSON_number q = Finite d -> isInteger d = false ->
  max_schema (Some (JNum q)) = inl not_integer.
Proof. intros Hq H. unfold max_schema. by rewrite Hq, H. Qed.

(** A value that is not a number is refused by the schema. *)
Lemma max_schema_not_a_number (v : json) :
  (forall q, v <> JNum q) -> max_schema (Some v) = inl (invalid_type "number").
Proof. intros H. destruct v; try reflexivity. by destruct (H q). Qed.

Section Tool.

Variable randomInt : Z -> Exn + Z.

Lemma invoke_randomInt (args : gmap string json) :
  invoke randomInt "randomInt" args =
    match max_schema (args !! "max") with
    | inl issue => Rejected (InvalidArgument issue)
    | inr max =>
        match randomInt max with
        | inl e => HandlerThrew e
        | inr n => Completed {| content := [ {| type := "text"; text := pretty n |} ] |}
        end
    end.
Proof.
  unfold invoke, randomInt_handler.
  change (String.eqb "randomInt" "randomInt") with true. cbv iota.
  destruct (max_schema _); [done|]. by destruct (randomInt _).
Qed.

(** A name other than ['randomInt'] is not a registered tool. *)
Lemma invoke_unknown_tool (name : string) (args : gmap string json) :
  name <> "randomInt" -> invoke randomInt name args = Rejected (UnknownTool name).
Proof.
  intros H. unfold invoke.
  destruct (String.eqb_spec name "randomInt"); [done | reflexivity].
Qed.

(** A [max] whose double is not an integer never reaches the handler. *)
Lemma invoke_fraction (q d : Q) :
  JSON_number q = Finite d -> isInteger d = false ->
  invoke randomInt "randomInt" {[ "max" := JNum q ]} = Rejected (InvalidArgument not_integer).
Proof.
  intros Hq H. rewrite invoke_randomInt, lookup_singleton_eq.
  by rewrite (max_schema_fraction _ _ Hq H).
Qed.

End Tool.

Example invoke_one_half (randomInt : Z -> Exn + Z) :
  invoke randomInt "randomInt" {[ "max" := JNum (1 # 2) ]} = Rejected (InvalidArgument not_integer).
Proof. eapply invoke_fraction; by vm_compute. Qed.

(** ** The [randomInt] tool on valid bounds *)

(** The schema puts no lower bound on [max]: a safe integer is never
    refused, and the result of the call is whatever the generator does with
    it. *)
Lemma invoke_integer (randomInt : Z -> Exn + Z) (max : Z) :
  Z.abs max <= MAX_SAFE_INTEGER ->
  invoke randomInt "randomInt" {[ "max" := JInt max ]}
  = match randomInt max with
    | inl e => HandlerThrew e
    | inr n => Completed {| content := [ {| type := "text"; text := pretty n |} ] |}
    end.
Proof.
  intros H. by rewrite invoke_randomInt, lookup_singleton_eq, (max_schema_integer _ H).
Qed.

Lemma crypto_randomInt_in_range (sample max : Z) :
  1 <= max <= RAND_MAX -> crypto_randomInt sample max = inr (sample mod max).
Proof.
  intros H. unfold crypto_randomInt.
  assert (HR : RAND_MAX = 281474976710655) by reflexivity.
  assert (HM : MAX_SAFE_INTEGER = 9007199254740991) by reflexivity.
  destruct (Z.leb_spec (Z.abs max) MAX_SAFE_INTEGER); [|lia]. cbn [negb].
  destruct (Z.leb_spec max 0); [lia|].
  destruct (Z.ltb_spec RAND_MAX max); [lia | reflexivity].
Qed.

(** C3 as stated fails: with the bound [2^48] the call does not succeed,
    whatever the generator draws: the bound passes the schema and the
    generator refuses it. *)
Lemma randomInt_tool_bound_too_large :
  max_schema (Some (JInt 281474976710656)) = inr 281474976710656
  /\ forall sample,
       invoke (crypto_randomInt sample) "randomInt" {[ "max" := JInt 281474976710656 ]}
       = HandlerThrew (RangeError "ERR_OUT_OF_RANGE").
Proof.
  split; [apply max_schema_integer; unfold MAX_SAFE_INTEGER; lia|].
  intros sample. rewrite invoke_integer by (unfold MAX_SAFE_INTEGER; lia). reflexivity.
Qed.

(** C3, amended.  For every integer [max] with [1 <= max <= 2^48 - 1],
    invoking [randomInt] with [{max}] completes with the decimal text of an
    integer [n], [0 <= n < max] (the generator's draw reduced modulo [max]);
    for [max = 1] that integer is [0]; and with [max] omitted the call is
    what it is with [{max: 100}], an integer below 100. *)
Theorem randomInt_tool_range (sample max : Z) :
  1 <= max <= RAND_MAX ->
  let n := sample mod max in
  invoke (crypto_randomInt sample) "randomInt" {[ "max" := JInt max ]}
    = Completed {| content := [ {| type := "text"; text := pretty n |} ] |}
  /\ 0 <= n < max
  /\ (max = 1 -> n = 0)
  /\ invoke (crypto_randomInt sample) "randomInt" ∅
     = invoke (crypto_randomInt sample) "randomInt" {[ "max" := JInt 100 ]}
  /\ invoke (crypto_randomInt sample) "randomInt" ∅
     = Completed {| content := [ {| type := "text"; text := pretty (sample mod 100) |} ] |}
  /\ 0 <= sample mod 100 < 100.
Proof.
  intros Hmax n. pose proof Hmax as Hmax'. unfold RAND_MAX in Hmax'.
  assert (Hn : 0 <= n < max) by (apply Z.mod_pos_bound; lia).
  assert (H100 : invoke (crypto_randomInt sample) "randomInt" {[ "max" := JInt 100 ]}
                 = Completed {| content := [ {| type := "text";
                                                text := pretty (sample mod 100) |} ] |}).
  { rewrite invoke_integer by (unfold MAX_SAFE_INTEGER; lia).
    by rewrite crypto_randomInt_in_range by (unfold RAND_MAX; lia). }
  split; [|split; [exact Hn | split; [lia | split; [|split]]]].
  - rewrite invoke_integer by (unfold MAX_SAFE_INTEGER; lia).
    by rewrite (crypto_randomInt_in_range _ _ Hmax).
  - rewrite H100, invoke_randomInt, lookup_empty, max_schema_absent.
    by rewrite crypto_randomInt_in_range by (unfold RAND_MAX; lia).
  - rewrite invoke_randomInt, lookup_empty, max_schema_absent.
    by rewrite crypto_randomInt_in_range by (unfold RAND_MAX; lia).
  - apply Z.mod_pos_bound. lia.
Qed.

Lemma randomInt_tool_range_witness :
  let n := 123456789 mod 10 in
  invoke (crypto_randomInt 123456789) "randomInt" {[ "max" := JInt 10 ]}
    = Completed {| content := [ {| type := "text"; text := pretty n |} ] |}
  /\ 0 <= n < 10
  /\ (10 = 1 -> n = 0)
  /\ invoke (crypto_randomInt 123456789) "randomInt" ∅
     = invoke (crypto_randomInt 123456789) "randomInt" {[ "max" := JInt 100 ]}
  /\ invoke (crypto_randomInt 123456789) "randomInt" ∅
     = Completed {| content := [ {| type := "text"; text := pretty (123456789 mod 100) |} ] |}
  /\ 0 <= 123456789 mod 100 < 100.
Proof.
  apply (randomInt_tool_range 123456789 10). unfold RAND_MAX. lia.
Defined.

(** ** The [randomInt] tool on bounds that are not positive *)

(** C4.  Invoked with [max = 0] or [max = -5], the tool is not refused with
    an invalid-argument error: the schema accepts both values, the handler
    runs and the generator is called with the bound. *)
Theorem randomInt_tool_nonpositive (randomInt : Z -> Exn + Z) :
  let ran (max : Z) :=
    match randomInt max with
    | inl e => HandlerThrew e
    | inr n => Completed {| content := [ {| type := "text"; text := pretty n |} ] |}
    end in
  (max_schema (Some (JInt 0)) = inr 0
   /\ invoke randomInt "randomInt" {[ "max" := JInt 0 ]} = ran 0
   /\ forall e, invoke randomInt "randomInt" {[ "max" := JInt 0 ]} <> Rejected e)
  /\ (max_schema (Some (JInt (-5))) = inr (-5)
   /\ invoke randomInt "randomInt" {[ "max" := JInt (-5) ]} = ran (-5)
   /\ forall e, invoke randomInt "randomInt" {[ "max" := JInt (-5) ]} <> Rejected e).
Proof.
  intros ran.
  split; (split; [apply max_schema_integer; unfold MAX_SAFE_INTEGER; lia|]);
    rewrite invoke_integer by (unfold MAX_SAFE_INTEGER; lia);
    (split; [reflexivity|]); intros e; subst ran; simpl; by destruct (randomInt _).
Qed.

Example randomInt_zero_reaches_generator :
  invoke Scenarios.largest_below "randomInt" {[ "max" := JInt 0 ]}
  = HandlerThrew (RangeError "The value of max is out of range")
  /\ invoke (crypto_randomInt 0) "randomInt" {[ "max" := JInt 0 ]}
     = HandlerThrew (RangeError "ERR_OUT_OF_RANGE").
Proof. split; by rewrite invoke_integer by (unfold MAX_SAFE_INTEGER; lia). Qed.

End BackendProps.

(** * Properties of the gateway *)
Module GatewayProps.
Import Backend.

Implicit Types (g : Gateway) (t : Transport) (sid : string).

(** ** Property reads on the registry *)

Lemma get_property_own g sid t :
  transports g !! sid = Some t -> get_property (transports g) sid = Some (Own t).
Proof. intros H. unfold get_property. by rewrite H. Qed.

Lemma get_property_undefined g sid :
  transports g !! sid = None -> sid ∉ Object_prototype ->
  get_property (transports g) sid = None.
Proof.
  intros H Hp. unfold get_property. rewrite H. by destruct (decide _).
Qed.

Lemma get_property_inherited g sid :
  transports g !! sid = None -> sid ∈ Object_prototype ->
  get_property (transports g) sid = Some (Inherited sid).
Proof.
  intros H Hp. unfold get_property. rewrite H. by destruct (decide _).
Qed.

(** ** [getOrCreateTransport] *)

(** A stored transport is returned and nothing changes. *)
Lemma getOrCreateTransport_stored g sid t :
  transports g !! sid = Some t ->
  getOrCreateTransport sid g = (Some (Own t), g).
Proof.
  intros H. unfold getOrCreateTransport.
  rewrite (get_property_own _ _ _ H). simpl.
  by rewrite (get_property_own _ _ _ H).
Qed.

(** For an identifier with no stored transport that [Object.prototype] does
    not define, a transport is constructed, connected, stored and returned. *)
Lemma getOrCreateTransport_fresh g sid :
  transports g !! sid = None -> sid ∉ Object_prototype ->
  let t := {| transport_ref := constructed g; sessionIdGenerator := sid |} in
  getOrCreateTransport sid g =
    (Some (Own t),
     {| transports := <[sid := t]> (transports g);
        connected := connected g ++ [t];
        constructed := S (constructed g) |}).
Proof.
  intros H Hp t. unfold getOrCreateTransport.
  rewrite (get_property_undefined _ _ H Hp). simpl.
  unfold get_property. by rewrite lookup_insert_eq.
Qed.

(** For an identifier that names a member of [Object.prototype] and has no
    stored transport, the inherited member is returned and nothing is
    constructed. *)
Lemma getOrCreateTransport_inherited g sid :
  transports g !! sid = None -> sid ∈ Object_prototype ->
  getOrCreateTransport sid g = (Some (Inherited sid), g).
Proof.
  intros H Hp. unfold getOrCreateTransport.
  rewrite (get_property_inherited _ _ H Hp). simpl.
  by rewrite (get_property_inherited _ _ H Hp).
Qed.

(** X11.  A second call with the same identifier returns what the first
    call returned and leaves the registry as the first call left it. *)
Lemma getOrCreateTransport_again g sid :
  let '(v, g1) := getOrCreateTransport sid g in
  getOrCreateTransport sid g1 = (v, g1).
Proof.
  destruct (transports g !! sid) as [t|] eqn:H.
  - rewrite (getOrCreateTransport_stored _ _ _ H).
    by apply getOrCreateTransport_stored.
  - destruct (decide (sid ∈ Object_prototype)) as [Hp|Hp].
    + rewrite (getOrCreateTransport_inherited _ _ H Hp).
      by apply getOrCreateTransport_inherited.
    + rewrite (getOrCreateTransport_fresh _ _ H Hp).
      apply getOrCreateTransport_stored. simpl. apply lookup_insert_eq.
Qed.

(** A stored transport stays stored, whatever identifier is asked for. *)
Lemma getOrCreateTransport_keeps g sid sid' t :
  transports g !! sid = Some t ->
  transports (snd (getOrCreateTransport sid' g)) !! sid = Some t.
Proof.
  intros H. destruct (transports g !! sid') as [t'|] eqn:H'.
  - by rewrite (getOrCreateTransport_stored _ _ _ H').
  - destruct (decide (sid' ∈ Object_prototype)) as [Hp|Hp].
    + by rewrite (getOrCreateTransport_inherited _ _ H' Hp).
    + rewrite (getOrCreateTransport_fresh _ _ H' Hp). simpl.
      rewrite lookup_insert_ne; [done | congruence].
Qed.

Lemma registry_ok_initial : registry_ok initial.
Proof.
  split; [|split]; simpl.
  - intros sid t H. by rewrite lookup_empty in H.
  - intros t H. by apply elem_of_nil in H.
  - constructor.
Qed.

Lemma getOrCreateTransport_ok g sid :
  registry_ok g -> registry_ok (snd (getOrCreateTransport sid g)).
Proof.
  intros (Hs & Hc & Hn).
  destruct (transports g !! sid) as [t'|] eqn:H'.
  { by rewrite (getOrCreateTransport_stored _ _ _ H'). }
  destruct (decide (sid ∈ Object_prototype)) as [Hp|Hp].
  { by rewrite (getOrCreateTransport_inherited _ _ H' Hp). }
  rewrite (getOrCreateTransport_fresh _ _ H' Hp).
  unfold registry_ok. cbn [snd transports connected constructed].
  set (t := {| transport_ref := constructed g; sessionIdGenerator := sid |}).
  assert (Hnew : t ∉ connected g).
  { intros Hin. destruct (Hc _ Hin) as [_ Hlt]. simpl in Hlt. lia. }
  split; [|split].
  - intros sid0 t0. rewrite lookup_insert. destruct (decide (sid = sid0)) as [->|Hne].
    + intros [= <-]. split; [|reflexivity].
      apply elem_of_app. right. by apply list_elem_of_singleton.
    + intros H0. destruct (Hs _ _ H0). split; [|done].
      apply elem_of_app. by left.
  - intros t0 Hin. apply elem_of_app in Hin as [Hin|Hin].
    + destruct (Hc _ Hin) as [Hst Hlt]. split; [|lia].
      rewrite lookup_insert_ne; [done | congruence].
    + apply list_elem_of_singleton in Hin as ->. simpl.
      split; [apply lookup_insert_eq | lia].
  - apply NoDup_app. split; [done|]. split; [|apply NoDup_singleton].
    intros x Hx Hx'. apply list_elem_of_singleton in Hx' as ->. done.
Qed.

(** [GET] never touches the registry. *)
Lemma get_mcp_state (query header : option string) g :
  snd (get_mcp query header g) = g.
Proof.
  unfold get_mcp. destruct (nonempty _); [|done].
  by destruct (get_property _ _) as [[]|].
Qed.

Lemma post_mcp_state (header : option string) (uuid : string) g :
  exists sid, snd (post_mcp header uuid g) = snd (getOrCreateTransport sid g).
Proof.
  unfold post_mcp.
  destruct (String.eqb (default "" header) "");
    [exists uuid | exists (default "" header)];
    by destruct (getOrCreateTransport _ g) as [[[]|] ?].
Qed.

Lemma handle_ok (r : Request) g : registry_ok g -> registry_ok (snd (handle r g)).
Proof.
  intros H. destruct r as [header uuid|query header]; simpl.
  - destruct (post_mcp_state header uuid g) as [sid ->].
    by apply getOrCreateTransport_ok.
  - by rewrite get_mcp_state.
Qed.

Lemma handle_keeps (r : Request) g sid t :
  transports g !! sid = Some t -> transports (snd (handle r g)) !! sid = Some t.
Proof.
  intros H. destruct r as [header uuid|query header]; simpl.
  - destruct (post_mcp_state header uuid g) as [sid' ->].
    by apply getOrCreateTransport_keeps.
  - by rewrite get_mcp_state.
Qed.

Lemma serve_ok (rs : list Request) g : registry_ok g -> registry_ok (serve rs g).
Proof.
  revert g. induction rs as [|r rs IH]; intros g H; [done|].
  apply IH. by apply handle_ok.
Qed.

(** Once a transport is stored under an identifier, it is the transport
    stored under that identifier after any further requests. *)
Lemma serve_keeps (rs : list Request) g sid t :
  transports g !! sid = Some t -> transports (serve rs g) !! sid = Some t.
Proof.
  revert g. induction rs as [|r rs IH]; intros g H; [done|].
  apply IH. by apply handle_keeps.
Qed.

(** X12.  Whatever requests were served since start-up, two transports
    connected to the server for the same identifier are one and the same. *)
Lemma one_transport_per_session (rs : list Request) (t1 t2 : Transport) :
  let g := serve rs initial in
  t1 ∈ connected g -> t2 ∈ connected g ->
  sessionIdGenerator t1 = sessionIdGenerator t2 -> t1 = t2.
Proof.
  intros g H1 H2 Heq.
  destruct (serve_ok rs initial registry_ok_initial) as (_ & Hc & _).
  destruct (Hc _ H1) as [Hs1 _]. destruct (Hc _ H2) as [Hs2 _].
  fold g in Hs1, Hs2. rewrite Heq in Hs1. congruence.
Qed.

(** A first [POST] without identifier, a second one presenting the
    identifier announced by the first, and a [GET] for it: one transport. *)
Example one_session :
  let g := serve [POST None "9b2f"; POST (Some "9b2f") "51c0"; GET (Some "9b2f") None]
                 initial in
  connected g = [ {| transport_ref := 0; sessionIdGenerator := "9b2f" |} ]
  /\ fst (handle (GET (Some "9b2f") None) g)
     = Forwarded {| transport_ref := 0; sessionIdGenerator := "9b2f" |} "9b2f" None
  /\ fst (handle (GET (Some "51c0") None) g) = Json bad_session 400.
Proof. vm_compute. repeat split. Qed.

(** C2.  On a registry with no entry for ["constructor"],
    [getOrCreateTransport("constructor")] constructs, connects and stores
    nothing: it returns the member [constructor] that the registry object
    inherits, which is no transport. *)
Theorem getOrCreateTransport_constructor :
  getOrCreateTransport "constructor" initial = (Some (Inherited "constructor"), initial)
  /\ transports (snd (getOrCreateTransport "constructor" initial)) !! "constructor" = None
  /\ connected (snd (getOrCreateTransport "constructor" initial)) = [].
Proof.
  assert (H : getOrCreateTransport "constructor" initial
              = (Some (Inherited "constructor"), initial)).
  { apply getOrCreateTransport_inherited; [apply lookup_empty|].
    unfold Object_prototype. apply list_elem_of_here. }
  rewrite H. split; [reflexivity|]. split; [apply lookup_empty | reflexivity].
Qed.

(** ** [GET /mcp] *)

(** X13.  Without an identifier, or with one that is neither stored nor a
    member of [Object.prototype], the reply is the [Bad Session] body with
    status 400 and the registry is left alone. *)
Lemma get_mcp_bad_session (query header : option string) g :
  match nonempty (resolve_session query header) with
  | None => True
  | Some sid => transports g !! sid = None /\ sid ∉ Object_prototype
  end ->
  get_mcp query header g = (Json bad_session 400, g).
Proof.
  unfold get_mcp. destruct (nonempty _) as [sid|]; [|done].
  intros [H Hp]. by rewrite (get_property_undefined _ _ H Hp).
Qed.

(** With a stored identifier the request goes to the stored transport. *)
Lemma get_mcp_forwarded (query header : option string) g sid t :
  nonempty (resolve_session query header) = Some sid ->
  transports g !! sid = Some t ->
  get_mcp query header g = (Forwarded t sid None, g).
Proof.
  intros Hsid H. unfold get_mcp. by rewrite Hsid, (get_property_own _ _ _ H).
Qed.

(** With an identifier that is not stored but names a member of
    [Object.prototype], the handler throws. *)
Lemma get_mcp_inherited (query header : option string) g sid :
  nonempty (resolve_session query header) = Some sid ->
  transports g !! sid = None -> sid ∈ Object_prototype ->
  get_mcp query header g = (Threw not_a_function, g).
Proof.
  intros Hsid H Hp. unfold get_mcp.
  by rewrite Hsid, (get_property_inherited _ _ H Hp).
Qed.

(** C5.  [GET /mcp?session=constructor] on a gateway that has registered no
    session is not answered with the [Bad Session] body: the inherited
    member passes the registration test and the handler throws when it calls
    [handleRequest] on it.  No transport is created. *)
Theorem get_mcp_constructor :
  get_mcp (Some "constructor") None initial = (Threw not_a_function, initial)
  /\ transports initial !! "constructor" = None
  /\ fst (get_mcp (Some "constructor") None initial) <> Json bad_session 400.
Proof.
  assert (H : get_mcp (Some "constructor") None initial = (Threw not_a_function, initial)).
  { apply (get_mcp_inherited _ _ _ "constructor"); [reflexivity | apply lookup_empty |].
    unfold Object_prototype. apply list_elem_of_here. }
  rewrite H. split; [reflexivity|]. split; [apply lookup_empty | discriminate].
Qed.

(** ** Which identifier a [GET] uses *)

Lemma resolve_session_query (q : string) (header : option string) :
  q <> "" -> nonempty (resolve_session (Some q) header) = Some q.
Proof.
  intros H. unfold resolve_session, nonempty.
  destruct (String.eqb_spec q ""); [done|].
  by destruct (String.eqb_spec q "").
Qed.

(** C8.  When a [GET] carries a non-empty [session] query parameter and a
    session-id header, the identifier is the query parameter: the header has
    no influence on the reply, and a forwarded request goes to the transport
    stored under the query parameter. *)
Theorem query_parameter_wins (q h : string) g :
  q <> "" ->
  resolve_session (Some q) (Some h) = Some q
  /\ get_mcp (Some q) (Some h) g = get_mcp (Some q) None g
  /\ forall t sid announced,
       fst (get_mcp (Some q) (Some h) g) = Forwarded t sid announced ->
       sid = q /\ transports g !! q = Some t.
Proof.
  intros H. split; [|split].
  - unfold resolve_session. by destruct (String.eqb_spec q "").
  - unfold get_mcp. by rewrite !resolve_session_query.
  - intros t sid announced. unfold get_mcp. rewrite resolve_session_query by done.
    unfold get_property. destruct (transports g !! q) as [t'|] eqn:Hq; simpl.
    + by intros [= -> -> _].
    + by destruct (decide _).
Qed.

Lemma query_parameter_wins_witness :
  resolve_session (Some "abc") (Some "xyz") = Some "abc"
  /\ get_mcp (Some "abc") (Some "xyz") initial = get_mcp (Some "abc") None initial
  /\ forall t sid announced,
       fst (get_mcp (Some "abc") (Some "xyz") initial) = Forwarded t sid announced ->
       sid = "abc" /\ transports initial !! "abc" = Some t.
Proof.
  apply (query_parameter_wins "abc" "xyz" initial). discriminate.
Defined.

End GatewayProps.

(** * Properties of the MCP client singleton *)
Module McpClientProps.
Import McpClient.

Section Environment.

Variable env : option string.
Variable url : string -> bool.

(** A call that returns a promise leaves that promise stored. *)
Lemma getMcpClient_stores (s s1 : State) (p : Promise) :
  getMcpClient env url s = (inr p, s1) -> clientPromise s1 = Some p.
Proof.
  unfold getMcpClient.
  destruct (clientPromise s) as [p0|] eqn:Hp.
  - by intros [= <- <-].
  - destruct env as [endpoint|]; [|discriminate].
    destruct (String.eqb endpoint ""); [discriminate|].
    destruct (url endpoint); [|discriminate].
    by intros [= <- <-].
Qed.

(** With a promise stored, a call returns it and changes nothing. *)
Lemma getMcpClient_stored (s : State) (p : Promise) :
  clientPromise s = Some p -> getMcpClient env url s = (inr p, s).
Proof. intros H. unfold getMcpClient. by rewrite H. Qed.

Lemma calls_stored (k : nat) (s : State) (p : Promise) :
  clientPromise s = Some p -> calls env url k s = (replicate k (inr p), s).
Proof.
  intros H. induction k as [|k IH]; [done|].
  simpl. by rewrite (getMcpClient_stored _ _ H), IH.
Qed.

Lemma getMcpClient_ok (s : State) :
  singleton_ok s -> singleton_ok (snd (getMcpClient env url s)).
Proof.
  unfold singleton_ok, getMcpClient.
  destruct (clientPromise s) as [p0|] eqn:Hp; simpl.
  - by rewrite Hp.
  - intros Hc. destruct env as [endpoint|]; [|done].
    destruct (String.eqb endpoint ""); [done|].
    destruct (url endpoint); simpl; [by rewrite Hc | done].
Qed.

Lemma calls_ok (k : nat) (s : State) :
  singleton_ok s -> singleton_ok (snd (calls env url k s)).
Proof.
  revert s. induction k as [|k IH]; intros s H; [done|].
  simpl. destruct (getMcpClient env url s) as [r s1] eqn:H1.
  specialize (IH s1). destruct (calls env url k s1) as [rs s2]. simpl in *.
  apply IH. pose proof (getMcpClient_ok s H) as H2. by rewrite H1 in H2.
Qed.

(** C10.  After a call of [getMcpClient] that returned a promise, every
    later call returns that same promise (hence the same client) and leaves
    the module state as it is; and however many calls are made from
    start-up, at most one connection is ever started. *)
Theorem getMcpClient_idempotent (s s1 : State) (p : Promise) :
  getMcpClient env url s = (inr p, s1) ->
  (forall k, calls env url k s1 = (replicate k (inr p), s1))
  /\ (forall k, (length (connects (snd (calls env url k start))) <= 1)%nat).
Proof.
  intros H. split.
  - intros k. apply calls_stored. by apply (getMcpClient_stores s).
  - intros k. assert (Hok : singleton_ok (snd (calls env url k start))).
    { by apply calls_ok. }
    unfold singleton_ok in Hok.
    destruct (clientPromise _); rewrite Hok; simpl; lia.
Qed.

End Environment.

Lemma getMcpClient_idempotent_witness :
  let env := Some "http://localhost:8080/mcp" in
  let p := {| resolves_to := {| client_ref := 0 |};
              endpoint_url := "http://localhost:8080/mcp" |} in
  let s1 := {| clientPromise := Some p; clients := 1; connects := [p] |} in
  (forall k, calls env (fun _ => true) k s1 = (replicate k (inr p), s1))
  /\ (forall k, (length (connects (snd (calls env (fun _ => true) k start))) <= 1)%nat).
Proof.
  intros env p s1.
  apply (getMcpClient_idempotent env (fun _ => true) start s1 p).
  reflexivity.
Defined.

End McpClientProps.

(** * Properties of the provider loops *)
Module LlmProps.
Import Llm.

(** ** Traces *)

Lemma tool_calls_of_app {Req} (es es' : list (Event Req)) :
  tool_calls_of (es ++ es') = tool_calls_of es ++ tool_calls_of es'.
Proof. apply omap_app. Qed.

Lemma requests_of_app {Req} (es es' : list (Event Req)) :
  requests_of (es ++ es') = requests_of es ++ requests_of es'.
Proof. apply omap_app. Qed.

(** A list of events that are all tool calls holds no request. *)
Lemma requests_of_tool_calls {Req} (es : list (Event Req)) :
  forallb is_tool_call es = true -> requests_of es = [].
Proof.
  induction es as [|[r|a] es IH]; simpl; [done | discriminate | exact IH].
Qed.

Section Turns.

Context {host : Host}.

Lemma callRandomIntTool_ok (n : nat) (args : option json) (out : CallToolOutput) :
  callTool n args = inr out -> exists rand, callRandomIntTool n args = inr rand.
Proof. intros H. unfold callRandomIntTool. rewrite H. eauto. Qed.

(** A turn emits tool calls only. *)
Lemma openai_turn_events req n r :
  forallb is_tool_call (fst (openai_turn req n r)) = true.
Proof.
  unfold openai_turn. destruct r as [e|body|res]; try reflexivity.
  destruct (mjoin _) as [msg|]; [|reflexivity].
  destruct (msg_tool_calls msg) as [|call calls]; [reflexivity|].
  destruct (String.eqb _ _); [|reflexivity].
  destruct (JSON_parse _); [reflexivity|].
  by destruct (callRandomIntTool _ _).
Qed.

Lemma gemini_turn_events req n r :
  forallb is_tool_call (fst (gemini_turn req n r)) = true.
Proof.
  unfold gemini_turn. destruct r as [e|body|res]; try reflexivity.
  destruct (head _) as [cand|]; [|reflexivity].
  destruct (find_functionCall _) as [[fc call]|]; [|reflexivity].
  destruct (String.eqb _ _); [|reflexivity].
  by destruct (callRandomIntTool _ _).
Qed.

Lemma start_tool_uses_events uses n :
  forallb is_tool_call (fst (start_tool_uses uses n)) = true.
Proof.
  revert n. induction uses as [|u uses IH]; intros n; simpl; [done|].
  destruct (String.eqb _ _).
  - specialize (IH (S n)). by destruct (start_tool_uses uses (S n)).
  - specialize (IH n). by destruct (start_tool_uses uses n).
Qed.

Lemma claude_turn_events msgs n r :
  forallb is_tool_call (fst (claude_turn msgs n r)) = true.
Proof.
  unfold claude_turn. destruct r as [e|body|res]; try reflexivity.
  destruct (String.eqb _ _); [|reflexivity].
  destruct (tool_uses _) as [|u uses] eqn:Hu; [reflexivity|].
  pose proof (start_tool_uses_events (u :: uses) n) as H.
  destruct (start_tool_uses (u :: uses) n) as [es promises].
  destruct (promise_all promises) as [e|toolResults]; [exact H|].
  by destruct (unhandled_uses _ _).
Qed.

(** ** The hop limit of the Claude loop *)

(** The Claude loop never sends more requests than it has hops. *)
Lemma claude_loop_requests hops script msgs n :
  (length (requests_of (trace (claude_loop hops script msgs n))) <= hops)%nat.
Proof.
  revert script msgs n. induction hops as [|hops IH]; intros script msgs n; simpl; [lia|].
  destruct script as [|r script]; simpl; [lia|].
  pose proof (claude_turn_events msgs n r) as Hes.
  destruct (claude_turn msgs n r) as [es [o|msgs']]; simpl in *.
  - rewrite requests_of_app, (requests_of_tool_calls _ Hes). simpl. lia.
  - rewrite requests_of_app, (requests_of_tool_calls _ Hes). simpl.
    specialize (IH script msgs' (n + length es)%nat). lia.
Qed.

(** A response that asks for [randomInt] once, answered by the tool. *)
Lemma claude_turn_single msgs n parts u rand :
  tool_uses parts = [u] -> use_name u = "randomInt" ->
  callRandomIntTool n (Some (use_input u)) = inr rand ->
  claude_turn msgs n (Scenarios.claude_asks parts)
  = ([ToolCall (Some (use_input u))],
     inr (msgs ++ [CAssistant parts;
                   CUser [Some {| tool_use_id := use_id u; result_content := rand |}]])).
Proof.
  intros Hu Hname Hcall. unfold claude_turn, Scenarios.claude_asks. simpl.
  rewrite Hu. simpl. rewrite Hname, Hcall. simpl.
  unfold unhandled_uses. simpl. by rewrite String.eqb_refl.
Qed.

(** X23.  Three single [randomInt] requests in a row, each answered by the tool:
    the loop makes exactly these three tool calls, sends three requests and
    throws, whatever the vendor would have replied next. *)
Lemma claude_hop_limit (apiKey : option string) (prompt : string)
    (history : list ChatMessage) (p1 p2 p3 : list ClaudeBlock) (u1 u2 u3 : ToolUse)
    (rest : list (Fetched ClaudeResponse)) :
  (forall k a, exists out, callTool k a = inr out) ->
  missing apiKey = false ->
  tool_uses p1 = [u1] -> tool_uses p2 = [u2] -> tool_uses p3 = [u3] ->
  use_name u1 = "randomInt" -> use_name u2 = "randomInt" -> use_name u3 = "randomInt" ->
  let run := chatWithClaudeTools apiKey prompt history
               (Scenarios.claude_asks p1 :: Scenarios.claude_asks p2
                  :: Scenarios.claude_asks p3 :: rest) in
  outcome run = Thrown (Error "Too many tool-calling hops")
  /\ tool_calls_of (trace run)
     = [Some (use_input u1); Some (use_input u2); Some (use_input u3)]
  /\ length (requests_of (trace run)) = 3%nat.
Proof.
  intros Htools Hkey H1 H2 H3 N1 N2 N3. unfold chatWithClaudeTools. rewrite Hkey.
  set (msgs := map _ history ++ _).
  destruct (Htools 0%nat (Some (use_input u1))) as [o1 Ho1].
  destruct (callRandomIntTool_ok _ _ _ Ho1) as [r1 Hr1].
  destruct (Htools 1%nat (Some (use_input u2))) as [o2 Ho2].
  destruct (callRandomIntTool_ok _ _ _ Ho2) as [r2 Hr2].
  destruct (Htools 2%nat (Some (use_input u3))) as [o3 Ho3].
  destruct (callRandomIntTool_ok _ _ _ Ho3) as [r3 Hr3].
  cbn [claude_loop].
  rewrite (claude_turn_single msgs 0 p1 u1 r1 H1 N1 Hr1). cbn [length Nat.add].
  rewrite (claude_turn_single _ 1 p2 u2 r2 H2 N2 Hr2). cbn [length Nat.add].
  rewrite (claude_turn_single _ 2 p3 u3 r3 H3 N3 Hr3).
  repeat split.
Qed.

(** ** No hop limit in the OpenAI and the Gemini loop *)

(** X24.  However many single [randomInt] requests the vendor makes before
    it answers, the OpenAI loop serves them all and returns the answer. *)
Lemma openai_no_hop_limit (calls : list OpenAIToolCall) (answer : string) req n :
  (forall k a, exists out, callTool k a = inr out) ->
  Forall (fun c => function_name c = "randomInt"
                   /\ exists a, JSON_parse (if String.eqb (function_arguments c) ""
                                            then "{}" else function_arguments c) = inr a)
         calls ->
  let run := openai_loop (map (fun c => Scenarios.openai_asks [c]) calls
                            ++ [Scenarios.openai_says (Some answer)]) req n in
  outcome run = Returned answer
  /\ length (tool_calls_of (trace run)) = length calls.
Proof.
  intros Htools Hcalls. revert req n.
  induction Hcalls as [|c calls (Hname & a & Ha) _ IH]; intros req n; [by split|].
  destruct (Htools n (Some a)) as [out Hout].
  destruct (callRandomIntTool_ok _ _ _ Hout) as [rand Hrand].
  simpl. rewrite Hname. simpl. rewrite Ha, Hrand. simpl.
  destruct (IH (req ++ [OAssistant {| msg_content := None; msg_tool_calls := [c] |};
                        OTool rand (call_id c)]) (n + 1)%nat) as [Ho Hl].
  split; [exact Ho | by rewrite Hl].
Qed.

(** X25.  However many single [randomInt] requests the vendor makes before
    it answers, the Gemini loop serves them all and returns the answer (the
    placeholder if the answer has no text). *)
Lemma gemini_no_hop_limit (asks : list GeminiPart) (answer : string) req n :
  (forall k a, exists out, callTool k a = inr out) ->
  Forall (fun p => exists call, functionCall p = Some call /\ fc_name call = "randomInt")
         asks ->
  let run := gemini_loop (map (fun p => Scenarios.gemini_replies [p]) asks
                            ++ [Scenarios.gemini_says answer]) req n in
  outcome run = Returned (or_placeholder answer)
  /\ length (tool_calls_of (trace run)) = length asks.
Proof.
  intros Htools Hasks. revert req n.
  induction Hasks as [|p asks (call & Hcall & Hname) _ IH]; intros req n.
  - simpl. split; [|reflexivity]. unfold gemini_text, has_text. simpl.
    destruct (String.eqb_spec answer "") as [->|]; [reflexivity|].
    simpl. reflexivity.
  - destruct (Htools n (fc_args call)) as [out Hout].
    destruct (callRandomIntTool_ok _ _ _ Hout) as [rand Hrand].
    simpl. rewrite Hcall, Hname. simpl. rewrite Hrand. simpl.
    destruct (IH (req ++ [GModel p; GTool "randomInt" (Number rand)]) (n + 1)%nat)
      as [Ho Hl].
    split; [exact Ho | by rewrite Hl].
Qed.

(** ** The tool calls of one Claude response *)

(** Every [randomInt] block issues its call, in block order. *)
Lemma start_tool_uses_calls uses n :
  tool_calls_of (fst (start_tool_uses uses n))
  = map (fun u => Some (use_input u)) (List.filter names_randomInt uses).
Proof.
  revert n. induction uses as [|u uses IH]; intros n; simpl; [done|].
  unfold names_randomInt at 1. destruct (String.eqb _ _).
  - specialize (IH (S n)). destruct (start_tool_uses uses (S n)). simpl in *.
    by rewrite IH.
  - specialize (IH n). by destruct (start_tool_uses uses n).
Qed.

(** [Promise.all] one promise at a time. *)
Lemma promise_all_nil {A} : promise_all (@nil (Exn + A)) = inr [].
Proof. reflexivity. Qed.

Lemma promise_all_fulfilled {A} (a : A) (rs : list (Exn + A)) :
  promise_all (inr a :: rs)
  = match promise_all rs with
    | inl e => inl e
    | inr l => inr (a :: l)
    end.
Proof.
  unfold promise_all.
  change (rejections (inr a :: rs)) with (rejections rs).
  change (fulfilments (inr a :: rs)) with (a :: fulfilments rs).
  by destruct (rejections rs).
Qed.

Lemma promise_all_rejected {A} (e : Exn) (rs : list (Exn + A)) :
  exists e', promise_all (inl e :: rs) = inl e'.
Proof.
  unfold promise_all. change (rejections (inl e :: rs)) with (e :: rejections rs). eauto.
Qed.

(** It rejects with the rejection of one of the promises. *)
Lemma promise_all_rejection {A} (rs : list (Exn + A)) (e : Exn) :
  promise_all rs = inl e -> inl e ∈ rs.
Proof.
  unfold promise_all. destruct (rejections rs) as [|e0 es] eqn:Hrs; [discriminate|].
  intros [= <-].
  assert (Hin : nth (settles_first (e0 :: es)) (e0 :: es) e0 ∈ rejections rs).
  { rewrite Hrs. apply list_elem_of_In.
    destruct (Nat.lt_ge_cases (settles_first (e0 :: es)) (length (e0 :: es))) as [Hlt|Hge].
    - by apply nth_In.
    - rewrite nth_overflow by exact Hge. by left. }
  apply list_elem_of_omap in Hin as ([e'|a] & Hin & Heq); [|discriminate].
  by injection Heq as ->.
Qed.

(** When all the promises are fulfilled, the results line up with the
    blocks. *)
Lemma start_tool_uses_results uses n toolResults :
  promise_all (snd (start_tool_uses uses n)) = inr toolResults ->
  Forall2 answers uses toolResults.
Proof.
  revert n toolResults. induction uses as [|u uses IH]; intros n toolResults;
    cbn [start_tool_uses].
  - cbn [snd]. rewrite promise_all_nil. intros [= <-]. constructor.
  - destruct (String.eqb_spec (use_name u) "randomInt") as [Hname|Hname].
    + specialize (IH (S n)). destruct (start_tool_uses uses (S n)) as [es rs].
      cbn [snd] in *. destruct (callRandomIntTool _ _) as [e|rand].
      * destruct (promise_all_rejected e rs) as [e' ->]. discriminate.
      * rewrite promise_all_fulfilled. destruct (promise_all rs) as [e|l]; [discriminate|].
        intros [= <-]. constructor; [by split | by apply IH].
    + specialize (IH n). destruct (start_tool_uses uses n) as [es rs].
      cbn [snd] in *. rewrite promise_all_fulfilled.
      destruct (promise_all rs) as [e|l]; [discriminate|].
      intros [= <-]. constructor; [done | by apply IH].
Qed.

(** When no tool call fails, all the promises are fulfilled. *)
Lemma start_tool_uses_fulfilled uses n :
  (forall k a, exists out, callTool k a = inr out) ->
  exists toolResults, promise_all (snd (start_tool_uses uses n)) = inr toolResults.
Proof.
  intros Htools. revert n. induction uses as [|u uses IH]; intros n;
    cbn [start_tool_uses]; [by exists []|].
  destruct (String.eqb _ _).
  - destruct (IH (S n)) as [l Hl]. destruct (start_tool_uses uses (S n)) as [es rs].
    destruct (Htools n (Some (use_input u))) as [out Hout].
    destruct (callRandomIntTool_ok _ _ _ Hout) as [rand ->].
    cbn [snd] in *. rewrite promise_all_fulfilled, Hl. eauto.
  - destruct (IH n) as [l Hl]. destruct (start_tool_uses uses n) as [es rs].
    cbn [snd] in *. rewrite promise_all_fulfilled, Hl. eauto.
Qed.

Lemma answers_for_block uses toolResults u :
  Forall2 answers uses toolResults -> u ∈ uses ->
  exists r, r ∈ toolResults /\ answers u r.
Proof.
  induction 1 as [|u0 r0 uses rs H0 _ IH]; intros Hin.
  - by apply elem_of_nil in Hin.
  - apply elem_of_cons in Hin as [->|Hin].
    + exists r0. split; [apply list_elem_of_here | done].
    + destruct (IH Hin) as (r & Hr & Ha). exists r.
      split; [by apply list_elem_of_further | done].
Qed.

Lemma block_for_answer uses toolResults r :
  Forall2 answers uses toolResults -> r ∈ toolResults ->
  exists u, u ∈ uses /\ answers u r.
Proof.
  induction 1 as [|u0 r0 uses rs H0 _ IH]; intros Hin.
  - by apply elem_of_nil in Hin.
  - apply elem_of_cons in Hin as [->|Hin].
    + exists u0. split; [apply list_elem_of_here | done].
    + destruct (IH Hin) as (u & Hu & Ha). exists u.
      split; [by apply list_elem_of_further | done].
Qed.

Lemma distinct_ids uses (u u' : ToolUse) :
  NoDup (map use_id uses) -> u ∈ uses -> u' ∈ uses -> use_id u = use_id u' -> u = u'.
Proof.
  induction uses as [|u0 uses IH]; simpl; intros Hnd Hu Hu' Hid.
  - by apply elem_of_nil in Hu.
  - apply NoDup_cons in Hnd as [Hnotin Hnd].
    apply elem_of_cons in Hu as [->|Hu]; apply elem_of_cons in Hu' as [->|Hu'].
    + reflexivity.
    + destruct Hnotin. rewrite Hid. by apply (list_elem_of_fmap_2 use_id).
    + destruct Hnotin. rewrite <- Hid. by apply (list_elem_of_fmap_2 use_id).
    + by apply IH.
Qed.

(** With distinct identifiers, the blocks left unanswered are exactly the
    blocks that do not ask for [randomInt]. *)
Lemma unhandled_uses_distinct uses toolResults :
  Forall2 answers uses toolResults -> NoDup (map use_id uses) ->
  unhandled_uses uses (omap id toolResults)
  = List.filter (fun u => negb (names_randomInt u)) uses.
Proof.
  intros Hres Hnd. unfold unhandled_uses. apply filter_ext_in. intros u Hu.
  apply list_elem_of_In in Hu. f_equal. unfold names_randomInt.
  destruct (String.eqb_spec (use_name u) "randomInt") as [Hname|Hname].
  - apply existsb_exists.
    destruct (answers_for_block _ _ _ Hres Hu) as ([v|] & Hr & Ha); [|done].
    destruct Ha as [_ Hid]. exists v. split; [|by apply String.eqb_eq].
    apply list_elem_of_In, list_elem_of_omap. by exists (Some v).
  - apply not_true_is_false. intros Hex.
    apply existsb_exists in Hex as (v & Hv & Hid). apply String.eqb_eq in Hid.
    apply list_elem_of_In, list_elem_of_omap in Hv as (r & Hr & Hrv).
    simpl in Hrv. subst r.
    destruct (block_for_answer _ _ _ Hres Hr) as (u' & Hu' & Hname' & Hid').
    assert (u' = u) as -> by (apply (distinct_ids uses); congruence).
    done.
Qed.

(** ** A final response without text *)

(** OpenAI: an answer whose [content] is absent is replaced. *)
Lemma openai_absent_answer req n others :
  openai_turn req n (Ok {| choices := Some {| msg_content := None; msg_tool_calls := [] |}
                                        :: others |})
  = ([], inl (Returned "(no response)")).
Proof. reflexivity. Qed.

(** OpenAI: an answer whose [content] is a string is returned as it is. *)
Lemma openai_text_answer req n others (text : string) :
  openai_turn req n (Ok {| choices := Some {| msg_content := Some text; msg_tool_calls := [] |}
                                        :: others |})
  = ([], inl (Returned text)).
Proof. reflexivity. Qed.

(** Gemini: a response with no function call and no text is replaced. *)
Lemma gemini_empty_answer req n cand others :
  find_functionCall (default [] (content_parts cand)) = None ->
  gemini_text (default [] (content_parts cand)) = "" ->
  gemini_turn req n (Ok {| candidates := cand :: others |})
  = ([], inl (Returned "(no response)")).
Proof. intros Hfc Htext. unfold gemini_turn. simpl. by rewrite Hfc, Htext. Qed.

(** Claude: a response that is not a tool request and has no text is
    replaced. *)
Lemma claude_empty_answer msgs n res :
  stop_reason res <> "tool_use" ->
  claude_text (default [] (res_content res)) = "" ->
  claude_turn msgs n (Ok res) = ([], inl (Returned "(no response)")).
Proof.
  intros Hstop Htext. unfold claude_turn.
  destruct (String.eqb_spec (stop_reason res) "tool_use"); [done|].
  by rewrite Htext.
Qed.

(** ** The request that follows a turn *)

Lemma openai_loop_first script req n :
  requests_of (trace (openai_loop script req n)) !! 0%nat = Some req.
Proof. by destruct script. Qed.

Lemma gemini_loop_first script req n :
  requests_of (trace (gemini_loop script req n)) !! 0%nat = Some req.
Proof. by destruct script. Qed.

Lemma claude_loop_first hops script msgs n :
  requests_of (trace (claude_loop (S hops) script msgs n)) !! 0%nat = Some msgs.
Proof. by destruct script. Qed.

(** After a turn that goes on, the next request is the conversation the
    turn produced. *)
Lemma openai_loop_second script req n r es req' :
  openai_turn req n r = (es, inr req') ->
  requests_of (trace (openai_loop (r :: script) req n)) !! 1%nat = Some req'.
Proof.
  intros H. pose proof (openai_turn_events req n r) as Hes.
  cbn [openai_loop]. rewrite H in Hes |- *. cbn [fst] in Hes. cbn [emit emits trace].
  change (requests_of (Fetch req :: ?l)) with (req :: requests_of l).
  rewrite requests_of_app, (requests_of_tool_calls _ Hes).
  apply openai_loop_first.
Qed.

Lemma gemini_loop_second script req n r es req' :
  gemini_turn req n r = (es, inr req') ->
  requests_of (trace (gemini_loop (r :: script) req n)) !! 1%nat = Some req'.
Proof.
  intros H. pose proof (gemini_turn_events req n r) as Hes.
  cbn [gemini_loop]. rewrite H in Hes |- *. cbn [fst] in Hes. cbn [emit emits trace].
  change (requests_of (Fetch req :: ?l)) with (req :: requests_of l).
  rewrite requests_of_app, (requests_of_tool_calls _ Hes).
  apply gemini_loop_first.
Qed.

Lemma claude_loop_second hops script msgs n r es msgs' :
  claude_turn msgs n r = (es, inr msgs') ->
  requests_of (trace (claude_loop (S (S hops)) (r :: script) msgs n)) !! 1%nat = Some msgs'.
Proof.
  intros H. pose proof (claude_turn_events msgs n r) as Hes.
  cbn [claude_loop]. rewrite H in Hes |- *. cbn [fst] in Hes. cbn [emit emits trace].
  change (requests_of (Fetch msgs :: ?l)) with (msgs :: requests_of l).
  rewrite requests_of_app, (requests_of_tool_calls _ Hes).
  apply (claude_loop_first hops).
Qed.

(** What a Claude turn that goes on appends to the conversation. *)
Lemma claude_turn_continues msgs n res es msgs' :
  claude_turn msgs n (Ok res) = (es, inr msgs') ->
  let parts := default [] (res_content res) in
  exists toolResults,
    msgs' = msgs ++ [CAssistant parts; CUser toolResults]
    /\ Forall2 answers (tool_uses parts) toolResults
    /\ unhandled_uses (tool_uses parts) (omap id toolResults) = [].
Proof.
  intros H parts. unfold claude_turn in H. fold parts in H.
  destruct (String.eqb _ _); [|discriminate].
  destruct (tool_uses parts) as [|u uses] eqn:Hu; [discriminate|].
  pose proof (start_tool_uses_results (u :: uses) n) as Hres.
  destruct (start_tool_uses (u :: uses) n) as [es' promises]. cbn [snd] in Hres.
  destruct (promise_all promises) as [e|toolResults]; [discriminate|].
  destruct (unhandled_uses _ _) eqn:Hun; [|discriminate].
  injection H as <- <-. exists toolResults.
  split; [reflexivity|]. split; [by apply Hres | exact Hun].
Qed.

End Turns.

(** ** Several tool requests in one response *)

Section Simultaneous.

Context {host : Host}.

(** OpenAI: when the first tool request of a response names [randomInt], it
    is served and the turn goes on, whatever other requests the response
    holds: they are echoed with the message and get no result. *)
Lemma openai_turn_first_call req n msg others call rest args rand :
  msg_tool_calls msg = call :: rest ->
  function_name call = "randomInt" ->
  JSON_parse (if String.eqb (function_arguments call) ""
              then "{}" else function_arguments call) = inr args ->
  callRandomIntTool n (Some args) = inr rand ->
  openai_turn req n (Ok {| choices := Some msg :: others |})
  = ([ToolCall (Some args)], inr (req ++ [OAssistant msg; OTool rand (call_id call)])).
Proof.
  intros Hcalls Hname Hparse Hrand.
  unfold openai_turn. simpl. by rewrite Hcalls, Hname, Hparse, Hrand.
Qed.

(** Gemini: likewise for the first part that holds a function call. *)
Lemma gemini_turn_first_call req n cand others fc call rand :
  find_functionCall (default [] (content_parts cand)) = Some (fc, call) ->
  fc_name call = "randomInt" ->
  callRandomIntTool n (fc_args call) = inr rand ->
  gemini_turn req n (Ok {| candidates := cand :: others |})
  = ([ToolCall (fc_args call)],
     inr (req ++ [GModel fc; GTool (fc_name call) (Number rand)])).
Proof.
  intros Hfind Hname Hrand.
  unfold gemini_turn. simpl. by rewrite Hfind, Hname, Hrand.
Qed.

(** Claude: a turn on a tool-use response calls the tool for every
    [randomInt] block, in block order; and when no call fails and the
    identifiers of the blocks are distinct, blocks that ask for another tool
    end the run with the error [Unhandled tool(s): ] and their names. *)
Lemma claude_turn_unhandled msgs n res es next :
  stop_reason res = "tool_use" ->
  claude_turn msgs n (Ok res) = (es, next) ->
  let uses := tool_uses (default [] (res_content res)) in
  let others := List.filter (fun u => negb (names_randomInt u)) uses in
  tool_calls_of es = map (fun u => Some (use_input u)) (List.filter names_randomInt uses)
  /\ ((forall k a, exists out, callTool k a = inr out) ->
      NoDup (map use_id uses) ->
      others <> [] ->
      next = inl (Thrown (Error ("Unhandled tool(s): " +:+
                                   String.concat ", " (map use_name others))))).
Proof.
  intros Hstop H. cbv zeta.
  unfold claude_turn in H. rewrite Hstop in H.
  change (String.eqb "tool_use" "tool_use") with true in H. cbv iota zeta in H.
  remember (tool_uses (default [] (res_content res))) as uses eqn:Euses. clear Euses.
  destruct uses as [|u uses'].
  { injection H as <- <-. split; [done|]. intros _ _ Hne. by destruct Hne. }
  remember (u :: uses') as uses eqn:Euses.
  clear Euses u uses'.
  pose proof (start_tool_uses_calls uses n) as Hcalls.
  pose proof (start_tool_uses_results uses n) as Hres.
  pose proof (fun Ht => start_tool_uses_fulfilled uses n Ht) as Hful.
  destruct (start_tool_uses uses n) as [es' promises]. cbn [fst snd] in *.
  assert (Hes : es = es').
  { destruct (promise_all promises); [by injection H|].
    by destruct (unhandled_uses _ _); injection H. }
  subst es'. split; [exact Hcalls|].
  intros Htools Hnd Hothers. destruct (Hful Htools) as [toolResults Hall].
  rewrite Hall in H.
  rewrite (unhandled_uses_distinct uses toolResults (Hres _ Hall) Hnd) in H.
  destruct (List.filter (fun u => negb (names_randomInt u)) uses) as [|o others];
    [by destruct Hothers|].
  by injection H as <-.
Qed.

End Simultaneous.

(** C6.  A response that asks for [randomInt] and, with it, for another
    tool ([lookup]).  The OpenAI and the Gemini loop run the first request
    and say nothing of the second: the conversation goes on with the result
    of the first alone and the run returns the vendor's answer.  The Claude
    loop on the same response runs the first and ends with the error
    [Unhandled tool(s): lookup].  And of two [randomInt] blocks in one
    response the Claude loop runs both, not the first only. *)
Theorem unanswered_tool_requests :
  (let asked := {| msg_content := None;
                   msg_tool_calls := [ Scenarios.openai_call "call_1" "randomInt";
                                       Scenarios.openai_call "call_2" "lookup" ] |} in
   let run := Scenarios.openai [ Ok {| choices := [Some asked] |};
                                 Scenarios.openai_says (Some "done") ] in
   tool_calls_of (trace run) = [Some (JObj [])]
   /\ requests_of (trace run) !! 1%nat
      = Some [OPlain "system" "You are a helpful assistant.";
              OPlain "user" "pick a number"; OAssistant asked; OTool "7" "call_1"]
   /\ outcome run = Returned "done")
  /\ (let run := Scenarios.gemini
                   [ Scenarios.gemini_replies [ Scenarios.gemini_call "randomInt";
                                                Scenarios.gemini_call "lookup" ];
                     Scenarios.gemini_says "done" ] in
      tool_calls_of (trace run) = [Some (JObj [])]
      /\ requests_of (trace run) !! 1%nat
         = Some [GPlain "user" "pick a number";
                 GModel (Scenarios.gemini_call "randomInt");
                 GTool "randomInt" (Num (inject_Z 7))]
      /\ outcome run = Returned "done")
  /\ (let run := Scenarios.claude
                   [ Scenarios.claude_asks [ BToolUse "toolu_1" "randomInt" (JObj []);
                                             BToolUse "toolu_2" "lookup" (JObj []) ];
                     Scenarios.claude_says "done" ] in
      tool_calls_of (trace run) = [Some (JObj [])]
      /\ length (requests_of (trace run)) = 1%nat
      /\ outcome run = Thrown (Error "Unhandled tool(s): lookup"))
  /\ (let run := Scenarios.claude
                   [ Scenarios.claude_asks [ BToolUse "toolu_1" "randomInt" (JObj []);
                                             BToolUse "toolu_2" "randomInt" (JInt 6) ];
                     Scenarios.claude_says "done" ] in
      tool_calls_of (trace run) = [Some (JObj []); Some (JInt 6)]
      /\ outcome run = Returned "done").
Proof. vm_compute. repeat split. Qed.

(** C7.  When the final response of the vendor carries the empty string as
    its answer, the OpenAI loop returns the empty string, not the
    placeholder; the Gemini and the Claude loop return ["(no response)"]. *)
Theorem empty_final_answer :
  outcome (Scenarios.openai [Scenarios.openai_says (Some "")]) = Returned ""
  /\ outcome (Scenarios.openai [Scenarios.openai_says None]) = Returned "(no response)"
  /\ outcome (Scenarios.gemini [Scenarios.gemini_says ""]) = Returned "(no response)"
  /\ outcome (Scenarios.claude [Scenarios.claude_says ""]) = Returned "(no response)".
Proof. vm_compute. repeat split. Qed.

(** The scenario of the specification: asked for a number under 10, the
    vendor requests [randomInt] with [{max: 10}], the tool says ["7"], and
    the vendor's answer to the resubmitted conversation is returned. *)
Example pick_a_number :
  let asks_claude := Scenarios.claude_asks [BToolUse "toolu_1" "randomInt"
                                               (JObj [("max", JInt 10)])] in
  let asks_gemini := Scenarios.gemini_replies
                       [ {| part_text := None;
                            functionCall := Some {| fc_name := "randomInt";
                                                    fc_args := Some (JObj [("max", JInt 10)]) |} |} ] in
  outcome (Scenarios.claude [asks_claude; Scenarios.claude_says "I picked 7"])
    = Returned "I picked 7"
  /\ tool_calls_of (trace (Scenarios.claude [asks_claude; Scenarios.claude_says "I picked 7"]))
     = [Some (JObj [("max", JInt 10)])]
  /\ outcome (Scenarios.gemini [asks_gemini; Scenarios.gemini_says "I picked 7"])
     = Returned "I picked 7"
  /\ outcome (Scenarios.openai [Scenarios.openai_asks [Scenarios.openai_call "call_1" "randomInt"];
                                Scenarios.openai_says (Some "I picked 7")])
     = Returned "I picked 7".
Proof. vm_compute. repeat split. Qed.

(** ** The hop limit *)

(** C1.  Fed four tool requests in a row (and then an answer), the OpenAI
    and the Gemini loop run the tool four times and return the answer; they
    raise no error.  The Claude loop on the same conversation stops after
    three tool calls with the error [Too many tool-calling hops]. *)
Theorem four_tool_requests :
  (length (tool_calls_of (trace (Scenarios.openai Scenarios.openai_four))) = 4%nat
   /\ outcome (Scenarios.openai Scenarios.openai_four) = Returned "done")
  /\ (length (tool_calls_of (trace (Scenarios.gemini Scenarios.gemini_four))) = 4%nat
   /\ outcome (Scenarios.gemini Scenarios.gemini_four) = Returned "done")
  /\ (length (tool_calls_of (trace (Scenarios.claude Scenarios.claude_four))) = 3%nat
   /\ outcome (Scenarios.claude Scenarios.claude_four)
      = Thrown (Error "Too many tool-calling hops")).
Proof. vm_compute. repeat split. Qed.

End LlmProps.

(** * More on the [randomInt] tool *)
Module ToolProps.
Import Backend.

Lemma integer_value (q : Q) : isInteger q = true -> q == inject_Z (toZ q).
Proof.
  unfold isInteger, toZ. intros H. apply Pos.eqb_eq in H.
  rewrite <- (Qred_correct q) at 1.
  destruct (Qred q) as [a b]. simpl in *. by subst b.
Qed.

(** X1.  The schema of [max] accepts exactly an absent value, which stands
    for 100, and a number whose double, the value [JSON.parse] delivers for
    the literal, is an integer; it passes on that double, not the literal.
    So a safe integer is passed on unchanged, [9007199254740993] arrives as
    [9007199254740992], a literal a hair above 1 is accepted as 1, and
    everything else (fractions, overflowing literals, strings, [null], ...)
    is refused. *)
Theorem max_schema_accepts (v : option json) (z : Z) :
  (max_schema v = inr z
   <-> (v = None /\ z = 100)
       \/ (exists q d, v = Some (JNum q) /\ JSON_number q = Finite d /\ d == inject_Z z))
  /\ (Z.abs z <= MAX_SAFE_INTEGER -> max_schema (Some (JInt z)) = inr z)
  /\ max_schema (Some (JInt 9007199254740993)) = inr 9007199254740992
  /\ max_schema (Some (JNum (1 + (1 # 10000000000000000000)))) = inr 1
  /\ max_schema (Some (JNum (1 + (1 # 1000)))) = inl not_integer
  /\ max_schema (Some (JInt (10 ^ 400))) = inl not_integer.
Proof.
  split; [|split; [apply BackendProps.max_schema_integer | by vm_compute]].
  split.
  - destruct v as [[| |q| | |]|]; simpl; try discriminate.
    + destruct (JSON_number q) as [d|] eqn:Hq; [|discriminate].
      destruct (isInteger d) eqn:Hd; [|discriminate].
      intros [= <-]. right. exists q, d. split; [reflexivity|]. split; [exact Hq|].
      by apply integer_value.
    + intros [= <-]. by left.
  - intros [[-> ->]|(q & d & -> & Hq & Hd)]; [reflexivity|].
    unfold max_schema. rewrite Hq.
    by destruct (BackendProps.integer_received d z Hd) as [-> ->].
Qed.

(** X2.  A call completes only for the tool ['randomInt'] with a bound the
    schema accepts and a generator that yields a value; the result is then
    one text item holding the decimal rendering of that value.  In
    particular no other tool name, and no refused argument, ever reaches the
    generator's result. *)
Theorem invoke_completed (randomInt : Z -> Exn + Z) (name : string)
    (args : gmap string json) (r : CallToolResult) :
  invoke randomInt name args = Completed r
  <-> name = "randomInt"
      /\ exists max n,
           max_schema (args !! "max") = inr max
           /\ randomInt max = inr n
           /\ r = {| content := [ {| type := "text"; text := pretty n |} ] |}.
Proof.
  unfold invoke, randomInt_handler. split.
  - destruct (String.eqb_spec name "randomInt") as [->|]; [|discriminate].
    destruct (max_schema _) as [issue|max]; [discriminate|].
    destruct (randomInt max) as [e|n] eqn:Hn; [discriminate|].
    intros [= <-]. split; [reflexivity|]. by exists max, n.
  - intros (-> & max & n & -> & Hn & ->). simpl. by rewrite Hn.
Qed.

(** X3.  The text of a result determines the generated integer: two calls
    of the handler give the same result exactly when the generator gave the
    same value. *)
Theorem handler_text_faithful (randomInt randomInt' : Z -> Exn + Z) (max max' n n' : Z) :
  randomInt max = inr n -> randomInt' max' = inr n' ->
  randomInt_handler randomInt max = randomInt_handler randomInt' max' <-> n = n'.
Proof.
  intros H H'. unfold randomInt_handler. rewrite H, H'. split.
  - intros [= Heq]. by apply (inj pretty) in Heq.
  - by intros ->.
Qed.

Lemma handler_text_faithful_witness :
  randomInt_handler Scenarios.largest_below 8 = randomInt_handler Scenarios.largest_below 10
  <-> 7 = 9.
Proof.
  apply (handler_text_faithful Scenarios.largest_below Scenarios.largest_below 8 10 7 9);
    reflexivity.
Defined.

End ToolProps.

(** * More on the transport registry and the routes *)
Module RegistryProps.
Import Backend GatewayProps Samples.

Implicit Types (g : Gateway) (t : Transport) (sid : string).



(** ** What requests can and cannot do to the registry *)

Lemma getOrCreateTransport_grows g sid :
  connected g `prefix_of` connected (snd (getOrCreateTransport sid g))
  /\ (constructed g <= constructed (snd (getOrCreateTransport sid g)))%nat.
Proof.
  destruct (transports g !! sid) as [t|] eqn:H.
  { by rewrite (getOrCreateTransport_stored _ _ _ H). }
  destruct (decide (sid ∈ Object_prototype)) as [Hp|Hp].
  { by rewrite (getOrCreateTransport_inherited _ _ H Hp). }
  rewrite (getOrCreateTransport_fresh _ _ H Hp). simpl.
  split; [by apply prefix_app_r | lia].
Qed.

Lemma handle_grows (r : Request) g :
  connected g `prefix_of` connected (snd (handle r g))
  /\ (constructed g <= constructed (snd (handle r g)))%nat.
Proof.
  destruct r as [header uuid|query header]; simpl.
  - destruct (post_mcp_state header uuid g) as [sid ->].
    apply getOrCreateTransport_grows.
  - by rewrite get_mcp_state.
Qed.

(** X5.  Serving requests only ever adds to the registry: a transport stored
    under an identifier stays the one stored under it, the transports
    connected so far stay connected in the same order, and none is ever
    removed. *)
Theorem registry_only_grows (rs : list Request) g :
  (forall sid t, transports g !! sid = Some t -> transports (serve rs g) !! sid = Some t)
  /\ connected g `prefix_of` connected (serve rs g)
  /\ (constructed g <= constructed (serve rs g))%nat.
Proof.
  split; [intros sid t; apply serve_keeps|].
  revert g. induction rs as [|r rs IH]; intros g; [done|].
  destruct (handle_grows r g) as [Hp Hc].
  destruct (IH (snd (handle r g))) as [Hp' Hc'].
  split; [by etrans | simpl; etrans; [exact Hc | exact Hc']].
Qed.

(** X6.  Requests that are all [GET]s leave the registry exactly as it
    is, whatever identifiers they present. *)
Theorem gets_never_register (rs : list Request) g :
  forallb (fun r => negb (Samples.is_post r)) rs = true -> serve rs g = g.
Proof.
  revert g. induction rs as [|[header uuid|query header] rs IH]; intros g; simpl;
    [done | discriminate |].
  intros H. unfold serve in *. simpl. rewrite get_mcp_state. by apply IH.
Qed.

Lemma gets_never_register_witness :
  serve [GET (Some "9b2f") None; GET None (Some "constructor"); GET None None] initial
  = initial.
Proof.
  apply (gets_never_register
           [GET (Some "9b2f") None; GET None (Some "constructor"); GET None None] initial).
  reflexivity.
Defined.

(** ** [POST /mcp] *)

Lemma own_is_stored g sid t :
  get_property (transports g) sid = Some (Own t) -> transports g !! sid = Some t.
Proof.
  unfold get_property. destruct (transports g !! sid); [by intros [= ->]|].
  by destruct (decide _).
Qed.

Lemma post_mcp_forwarded (header : option string) (uuid : string) g t sid announced :
  fst (post_mcp header uuid g) = Forwarded t sid announced ->
  transports (snd (post_mcp header uuid g)) !! sid = Some t
  /\ sid = (if String.eqb (default "" header) "" then uuid else default "" header)
  /\ announced = (if String.eqb (default "" header) "" then Some uuid else None).
Proof.
  unfold post_mcp.
  destruct (String.eqb (default "" header) "");
    (match goal with |- context [getOrCreateTransport ?s g] =>
       pose proof (eq_refl : fst (getOrCreateTransport s g)
                             = get_property (transports (snd (getOrCreateTransport s g))) s)
         as Hres;
       destruct (getOrCreateTransport s g) as [[[t'|?]|] g'] end;
     simpl in *; try discriminate;
     intros [= -> <- <-]; split; [|done]; by apply own_is_stored).
Qed.

(** X7.  A [POST] without a session header (or with an empty one) runs under
    the identifier [randomUUID()] yields and announces it in the response;
    when that identifier is new to the registry, the request creates the one
    transport generating it and is forwarded to it. *)
Theorem post_allocates (header : option string) (uuid : string) g :
  default "" header = "" ->
  transports g !! uuid = None -> uuid ∉ Object_prototype ->
  let t := {| transport_ref := constructed g; sessionIdGenerator := uuid |} in
  post_mcp header uuid g
  = (Forwarded t uuid (Some uuid),
     {| transports := <[uuid := t]> (transports g);
        connected := connected g ++ [t];
        constructed := S (constructed g) |}).
Proof.
  intros Hh Hnone Hp t. unfold post_mcp. rewrite Hh.
  change (String.eqb "" "") with true. cbv beta iota zeta.
  by rewrite (getOrCreateTransport_fresh _ _ Hnone Hp).
Qed.

Lemma post_allocates_witness :
  let t := {| transport_ref := 0; sessionIdGenerator := "9b2f" |} in
  post_mcp None "9b2f" initial
  = (Forwarded t "9b2f" (Some "9b2f"),
     {| transports := <["9b2f" := t]> (transports initial);
        connected := connected initial ++ [t];
        constructed := S (constructed initial) |}).
Proof.
  apply (post_allocates None "9b2f" initial); [reflexivity | apply lookup_empty |].
  unfold Object_prototype. intros H. repeat (apply elem_of_cons in H as [H|H]; [discriminate|]).
  by apply elem_of_nil in H.
Defined.

(** X8.  A [POST] that presents a non-empty session header never consults
    [randomUUID()] and announces nothing: its outcome is the same whatever
    identifier would have been generated, and when it is forwarded it runs
    under the presented identifier, on the transport stored under it. *)
Theorem post_presented (sid uuid uuid' : string) g :
  sid <> "" ->
  post_mcp (Some sid) uuid g = post_mcp (Some sid) uuid' g
  /\ forall t s announced,
       fst (post_mcp (Some sid) uuid g) = Forwarded t s announced ->
       s = sid /\ announced = None
       /\ transports (snd (post_mcp (Some sid) uuid g)) !! sid = Some t.
Proof.
  intros Hne. split.
  - unfold post_mcp. simpl. by destruct (String.eqb_spec sid "").
  - intros t s announced H. destruct (post_mcp_forwarded _ _ _ _ _ _ H) as (Hst & Hs & Ha).
    simpl in Hs, Ha. destruct (String.eqb_spec sid ""); [done|]. by subst.
Qed.

Lemma post_presented_witness :
  post_mcp (Some "9b2f") "51c0" initial = post_mcp (Some "9b2f") "77aa" initial
  /\ forall t s announced,
       fst (post_mcp (Some "9b2f") "51c0" initial) = Forwarded t s announced ->
       s = "9b2f" /\ announced = None
       /\ transports (snd (post_mcp (Some "9b2f") "51c0" initial)) !! "9b2f" = Some t.
Proof.
  apply (post_presented "9b2f" "51c0" "77aa" initial). discriminate.
Defined.

(** X9.  Once a [POST] has been forwarded to a transport under an
    identifier, every later [GET] that resolves to this identifier is
    forwarded to that same transport, whatever requests were served in
    between. *)
Theorem post_then_get (header : option string) (uuid : string) g t sid announced
    (rs : list Request) (query hdr : option string) :
  fst (post_mcp header uuid g) = Forwarded t sid announced ->
  nonempty (resolve_session query hdr) = Some sid ->
  get_mcp query hdr (serve rs (snd (post_mcp header uuid g)))
  = (Forwarded t sid None, serve rs (snd (post_mcp header uuid g))).
Proof.
  intros Hpost Hsid. destruct (post_mcp_forwarded _ _ _ _ _ _ Hpost) as (Hst & _ & _).
  apply get_mcp_forwarded; [exact Hsid|]. by apply serve_keeps.
Qed.

Lemma post_then_get_witness :
  let t := {| transport_ref := 0; sessionIdGenerator := "9b2f" |} in
  let g := serve [POST None "51c0"; GET (Some "zz") None] (snd (post_mcp None "9b2f" initial)) in
  get_mcp (Some "9b2f") (Some "51c0") g = (Forwarded t "9b2f" None, g).
Proof.
  intros t g.
  apply (post_then_get None "9b2f" initial t "9b2f" (Some "9b2f")
           [POST None "51c0"; GET (Some "zz") None] (Some "9b2f") (Some "51c0"));
    reflexivity.
Defined.

(** ** Counting transports *)

Lemma getOrCreateTransport_accounted g sid :
  accounted g ->
  accounted (snd (getOrCreateTransport sid g))
  /\ (constructed (snd (getOrCreateTransport sid g)) <= S (constructed g))%nat.
Proof.
  intros [Hl Hs]. destruct (transports g !! sid) as [t|] eqn:H.
  { rewrite (getOrCreateTransport_stored _ _ _ H). simpl. split; [by split | lia]. }
  destruct (decide (sid ∈ Object_prototype)) as [Hp|Hp].
  { rewrite (getOrCreateTransport_inherited _ _ H Hp). simpl. split; [by split | lia]. }
  rewrite (getOrCreateTransport_fresh _ _ H Hp). unfold accounted. simpl.
  rewrite length_app, (map_size_insert_None _ _ _ H). simpl. lia.
Qed.

Lemma serve_accounted (rs : list Request) g :
  accounted g ->
  accounted (serve rs g)
  /\ (constructed (serve rs g)
      <= constructed g + length (List.filter Samples.is_post rs))%nat.
Proof.
  revert g. induction rs as [|[header uuid|query header] rs IH]; intros g Hg.
  - split; [done | simpl; lia].
  - destruct (post_mcp_state header uuid g) as [sid Hsid].
    destruct (getOrCreateTransport_accounted g sid Hg) as [Hacc Hle].
    rewrite <- Hsid in Hacc, Hle.
    destruct (IH _ Hacc) as [Hacc' Hle']. split; [exact Hacc'|].
    change (serve (POST header uuid :: rs) g)
      with (serve rs (snd (post_mcp header uuid g))).
    simpl. lia.
  - change (serve (GET query header :: rs) g) with (serve rs (snd (get_mcp query header g))).
    rewrite get_mcp_state. simpl. by apply IH.
Qed.

(** X10.  Whatever requests were served since start-up, the registry holds
    exactly the transports that were constructed, each connected once, and
    there are at most as many of them as there were [POST] requests. *)
Theorem registry_accounting (rs : list Request) :
  let g := serve rs initial in
  length (connected g) = constructed g
  /\ size (transports g) = constructed g
  /\ NoDup (connected g)
  /\ (constructed g <= length (List.filter Samples.is_post rs))%nat.
Proof.
  intros g. destruct (serve_accounted rs initial) as [[Hl Hs] Hle].
  { split; [reflexivity | apply map_size_empty]. }
  destruct (serve_ok rs initial registry_ok_initial) as (_ & _ & Hnd).
  repeat split; done.
Qed.

(** ** Witnesses for the lemmas on sessions above *)

Lemma one_transport_per_session_witness :
  {| transport_ref := 0; sessionIdGenerator := "9b2f" |}
  = {| transport_ref := 0; sessionIdGenerator := "9b2f" |}.
Proof.
  apply (one_transport_per_session
           [POST None "9b2f"; POST (Some "9b2f") "51c0"; POST (Some "a1") "77aa"]
           {| transport_ref := 0; sessionIdGenerator := "9b2f" |}
           {| transport_ref := 0; sessionIdGenerator := "9b2f" |});
    [apply list_elem_of_here | apply list_elem_of_here | reflexivity].
Defined.

Lemma get_mcp_bad_session_witness :
  get_mcp (Some "9b2f") (Some "51c0") initial = (Json bad_session 400, initial).
Proof.
  apply (get_mcp_bad_session (Some "9b2f") (Some "51c0") initial).
  split; [apply lookup_empty|].
  unfold Object_prototype. intros H. repeat (apply elem_of_cons in H as [H|H]; [discriminate|]).
  by apply elem_of_nil in H.
Defined.

End RegistryProps.

(** * More on the MCP client singleton *)
Module ClientProps.
Import McpClient.

(** X14.  With the endpoint variable absent or empty, every call throws the
    same error; no promise is ever stored and no connection started, yet
    each call has constructed a client of its own before it throws. *)
Theorem getMcpClient_unconfigured (env : option string) (url : string -> bool)
    (k : nat) (s : State) :
  default "" env = "" -> clientPromise s = None ->
  calls env url k s
  = (replicate k (inl (Error "VITE_MCP_ENDPOINT is not defined")),
     {| clientPromise := None; clients := clients s + k; connects := connects s |}).
Proof.
  intros Henv. revert s. induction k as [|k IH]; intros s Hs.
  - simpl. destruct s; simpl in *. subst. by rewrite Nat.add_0_r.
  - simpl. unfold getMcpClient. rewrite Hs.
    destruct env as [e|]; simpl in Henv; [subst e; simpl|];
      (rewrite IH by done; simpl; do 2 f_equal; lia).
Qed.

Lemma getMcpClient_unconfigured_witness :
  calls None (fun _ => true) 3 start
  = (replicate 3 (inl (Error "VITE_MCP_ENDPOINT is not defined")),
     {| clientPromise := None; clients := clients start + 3; connects := connects start |}).
Proof.
  apply (getMcpClient_unconfigured None (fun _ => true) 3 start); reflexivity.
Defined.

(** X15.  With a usable endpoint, any number of calls from start-up, one
    at least, all return one promise: the one made by the first call, for
    the first client and that endpoint.  One client was constructed and one
    connection started. *)
Theorem getMcpClient_singleton (endpoint : string) (url : string -> bool) (k : nat) :
  endpoint <> "" -> url endpoint = true ->
  let p := {| resolves_to := {| client_ref := 0 |}; endpoint_url := endpoint |} in
  calls (Some endpoint) url (S k) start
  = (replicate (S k) (inr p), {| clientPromise := Some p; clients := 1; connects := [p] |}).
Proof.
  intros Hne Hurl p. simpl. unfold getMcpClient at 1. simpl.
  destruct (String.eqb_spec endpoint ""); [done|]. rewrite Hurl.
  by rewrite (McpClientProps.calls_stored _ _ k _ p).
Qed.

Lemma getMcpClient_singleton_witness :
  let p := {| resolves_to := {| client_ref := 0 |};
              endpoint_url := "http://localhost:8080/mcp" |} in
  calls (Some "http://localhost:8080/mcp") (fun _ => true) 4 start
  = (replicate 4 (inr p), {| clientPromise := Some p; clients := 1; connects := [p] |}).
Proof.
  apply (getMcpClient_singleton "http://localhost:8080/mcp" (fun _ => true) 3);
    [discriminate | reflexivity].
Defined.

End ClientProps.

(** * More on the provider loops *)
Module LoopProps.
Import Llm LlmProps Samples.

(** X16.  Without its API key (absent or empty) a chat function throws at
    once: no request leaves for the vendor and no tool is called, whatever
    the prompt and the history. *)
Theorem missing_key_stops {host : Host} (apiKey : option string) (prompt : string)
    (history : list ChatMessage) :
  missing apiKey = true ->
  (forall script,
      chatWithOpenAITools apiKey prompt history script
      = finish (Thrown (Error "VITE_OPENAI_API_KEY is not set")))
  /\ (forall script,
      chatWithGeminiTools apiKey prompt history script
      = finish (Thrown (Error "VITE_GEMINI_API_KEY is not set")))
  /\ (forall script,
      chatWithClaudeTools apiKey prompt history script
      = finish (Thrown (Error "VITE_CLAUDE_API_KEY is not set"))).
Proof.
  intros H. unfold chatWithOpenAITools, chatWithGeminiTools, chatWithClaudeTools.
  by rewrite H.
Qed.

Lemma missing_key_stops_witness :
  (forall script,
      chatWithOpenAITools (host := Scenarios.seven) (Some "") "hi" [] script
      = finish (Thrown (Error "VITE_OPENAI_API_KEY is not set")))
  /\ (forall script,
      chatWithGeminiTools (host := Scenarios.seven) (Some "") "hi" [] script
      = finish (Thrown (Error "VITE_GEMINI_API_KEY is not set")))
  /\ (forall script,
      chatWithClaudeTools (host := Scenarios.seven) (Some "") "hi" [] script
      = finish (Thrown (Error "VITE_CLAUDE_API_KEY is not set"))).
Proof.
  apply (missing_key_stops (host := Scenarios.seven) (Some "") "hi" []). reflexivity.
Defined.

Section Conversations.

Context {host : Host}.

(** ** A turn that goes on appends two entries *)

Lemma openai_turn_appends req n r es req' :
  openai_turn req n r = (es, inr req') -> exists a b, req' = req ++ [a; b].
Proof.
  unfold openai_turn. destruct r as [e|body|res]; try discriminate.
  destruct (mjoin _) as [msg|]; [|discriminate].
  destruct (msg_tool_calls msg) as [|call calls]; [discriminate|].
  destruct (String.eqb _ _); [|discriminate].
  destruct (JSON_parse _); [discriminate|].
  destruct (callRandomIntTool _ _); [discriminate|].
  intros [= _ <-]. eauto.
Qed.

Lemma gemini_turn_appends req n r es req' :
  gemini_turn req n r = (es, inr req') -> exists a b, req' = req ++ [a; b].
Proof.
  unfold gemini_turn. destruct r as [e|body|res]; try discriminate.
  destruct (head _) as [cand|]; [|discriminate].
  destruct (find_functionCall _) as [[fc call]|]; [|discriminate].
  destruct (String.eqb _ _); [|discriminate].
  destruct (callRandomIntTool _ _); [discriminate|].
  intros [= _ <-]. eauto.
Qed.

Lemma claude_turn_appends msgs n r es msgs' :
  claude_turn msgs n r = (es, inr msgs') -> exists a b, msgs' = msgs ++ [a; b].
Proof.
  destruct r as [e|body|res]; try discriminate.
  intros H. destruct (claude_turn_continues _ _ _ _ _ H) as (toolResults & -> & _).
  eauto.
Qed.

(** ** The requests of a run *)

Lemma openai_requests script req n :
  requests_of (trace (openai_loop script req n))
  = req :: match script with
           | [] => []
           | r :: script =>
               match openai_turn req n r with
               | (es, inl _) => []
               | (es, inr req') =>
                   requests_of (trace (openai_loop script req' (n + length es)))
               end
           end.
Proof.
  destruct script as [|r script]; [reflexivity|].
  cbn [openai_loop]. pose proof (openai_turn_events req n r) as Hes.
  destruct (openai_turn req n r) as [es [o|req']]; cbn [fst] in Hes;
    cbn [emit emits trace finish];
    change (requests_of (Fetch req :: ?l)) with (req :: requests_of l);
    by rewrite requests_of_app, (requests_of_tool_calls _ Hes).
Qed.

Lemma gemini_requests script req n :
  requests_of (trace (gemini_loop script req n))
  = req :: match script with
           | [] => []
           | r :: script =>
               match gemini_turn req n r with
               | (es, inl _) => []
               | (es, inr req') =>
                   requests_of (trace (gemini_loop script req' (n + length es)))
               end
           end.
Proof.
  destruct script as [|r script]; [reflexivity|].
  cbn [gemini_loop]. pose proof (gemini_turn_events req n r) as Hes.
  destruct (gemini_turn req n r) as [es [o|req']]; cbn [fst] in Hes;
    cbn [emit emits trace finish];
    change (requests_of (Fetch req :: ?l)) with (req :: requests_of l);
    by rewrite requests_of_app, (requests_of_tool_calls _ Hes).
Qed.

Lemma claude_requests hops script msgs n :
  requests_of (trace (claude_loop (S hops) script msgs n))
  = msgs :: match script with
            | [] => []
            | r :: script =>
                match claude_turn msgs n r with
                | (es, inl _) => []
                | (es, inr msgs') =>
                    requests_of (trace (claude_loop hops script msgs' (n + length es)))
                end
            end.
Proof.
  destruct script as [|r script]; [reflexivity|].
  cbn [claude_loop]. pose proof (claude_turn_events msgs n r) as Hes.
  destruct (claude_turn msgs n r) as [es [o|msgs']]; cbn [fst] in Hes;
    cbn [emit emits trace finish];
    change (requests_of (Fetch msgs :: ?l)) with (msgs :: requests_of l);
    by rewrite requests_of_app, (requests_of_tool_calls _ Hes).
Qed.

Lemma openai_requests_extend script req n i r :
  requests_of (trace (openai_loop script req n)) !! i = Some r ->
  exists ext, r = req ++ ext /\ length ext = (2 * i)%nat.
Proof.
  revert script req n r. induction i as [|i IH]; intros script req n r;
    rewrite openai_requests; simpl.
  - intros [= <-]. exists []. by rewrite app_nil_r.
  - destruct script as [|r0 script]; [done|].
    destruct (openai_turn req n r0) as [es [o|req']] eqn:Hturn; [done|].
    intros H. destruct (IH _ _ _ _ H) as (ext & -> & Hlen).
    destruct (openai_turn_appends _ _ _ _ _ Hturn) as (a & b & ->).
    exists ([a; b] ++ ext). rewrite <- app_assoc. split; [done|]. simpl. lia.
Qed.

Lemma gemini_requests_extend script req n i r :
  requests_of (trace (gemini_loop script req n)) !! i = Some r ->
  exists ext, r = req ++ ext /\ length ext = (2 * i)%nat.
Proof.
  revert script req n r. induction i as [|i IH]; intros script req n r;
    rewrite gemini_requests; simpl.
  - intros [= <-]. exists []. by rewrite app_nil_r.
  - destruct script as [|r0 script]; [done|].
    destruct (gemini_turn req n r0) as [es [o|req']] eqn:Hturn; [done|].
    intros H. destruct (IH _ _ _ _ H) as (ext & -> & Hlen).
    destruct (gemini_turn_appends _ _ _ _ _ Hturn) as (a & b & ->).
    exists ([a; b] ++ ext). rewrite <- app_assoc. split; [done|]. simpl. lia.
Qed.

Lemma claude_requests_extend hops script msgs n i r :
  requests_of (trace (claude_loop hops script msgs n)) !! i = Some r ->
  exists ext, r = msgs ++ ext /\ length ext = (2 * i)%nat.
Proof.
  revert hops script msgs n r. induction i as [|i IH]; intros [|hops] script msgs n r;
    try done; rewrite claude_requests; simpl.
  - intros [= <-]. exists []. by rewrite app_nil_r.
  - destruct script as [|r0 script]; [done|].
    destruct (claude_turn msgs n r0) as [es [o|msgs']] eqn:Hturn; [done|].
    intros H. destruct (IH _ _ _ _ _ H) as (ext & -> & Hlen).
    destruct (claude_turn_appends _ _ _ _ _ Hturn) as (a & b & ->).
    exists ([a; b] ++ ext). rewrite <- app_assoc. split; [done|]. simpl. lia.
Qed.

(** ** The shape of a turn of the OpenAI and the Gemini loop *)

Lemma openai_turn_shape req n r :
  (exists o, openai_turn req n r = ([], inl o))
  \/ (exists a e, openai_turn req n r = ([ToolCall a], inl (Thrown e)))
  \/ (exists a req', openai_turn req n r = ([ToolCall a], inr req')).
Proof.
  unfold openai_turn. destruct r as [e|body|res]; eauto.
  destruct (mjoin _) as [msg|]; eauto.
  destruct (msg_tool_calls msg) as [|call calls]; eauto.
  destruct (String.eqb _ _); eauto.
  destruct (JSON_parse _); eauto.
  destruct (callRandomIntTool _ _); eauto.
Qed.

Lemma gemini_turn_shape req n r :
  (exists o, gemini_turn req n r = ([], inl o))
  \/ (exists a e, gemini_turn req n r = ([ToolCall a], inl (Thrown e)))
  \/ (exists a req', gemini_turn req n r = ([ToolCall a], inr req')).
Proof.
  unfold gemini_turn. destruct r as [e|body|res]; eauto.
  destruct (head _) as [cand|]; eauto.
  destruct (find_functionCall _) as [[fc call]|]; eauto.
  destruct (String.eqb _ _); eauto.
  destruct (callRandomIntTool _ _); eauto.
Qed.

Lemma openai_counts script req n :
  let run := openai_loop script req n in
  (length (tool_calls_of (trace run)) <= length (requests_of (trace run)))%nat
  /\ (length (requests_of (trace run)) <= S (length script))%nat
  /\ ((outcome run = Pending \/ exists a, outcome run = Returned a) ->
      length (requests_of (trace run)) = S (length (tool_calls_of (trace run)))).
Proof.
  revert req n. induction script as [|r script IH]; intros req n.
  - simpl. repeat split; lia.
  - cbn [openai_loop].
    destruct (openai_turn_shape req n r) as [[o ->]|[(a & e & ->)|(a & req' & ->)]].
    + simpl. repeat split; lia.
    + simpl. split; [lia|]. split; [lia|]. intros [H|[b H]]; discriminate.
    + destruct (IH req' (n + 1)%nat) as (H1 & H2 & H3). simpl in *.
      split; [lia|]. split; [lia|]. intros H. rewrite (H3 H). reflexivity.
Qed.

Lemma gemini_counts script req n :
  let run := gemini_loop script req n in
  (length (tool_calls_of (trace run)) <= length (requests_of (trace run)))%nat
  /\ (length (requests_of (trace run)) <= S (length script))%nat
  /\ ((outcome run = Pending \/ exists a, outcome run = Returned a) ->
      length (requests_of (trace run)) = S (length (tool_calls_of (trace run)))).
Proof.
  revert req n. induction script as [|r script IH]; intros req n.
  - simpl. repeat split; lia.
  - cbn [gemini_loop].
    destruct (gemini_turn_shape req n r) as [[o ->]|[(a & e & ->)|(a & req' & ->)]].
    + simpl. repeat split; lia.
    + simpl. split; [lia|]. split; [lia|]. intros [H|[b H]]; discriminate.
    + destruct (IH req' (n + 1)%nat) as (H1 & H2 & H3). simpl in *.
      split; [lia|]. split; [lia|]. intros H. rewrite (H3 H). reflexivity.
Qed.

(** ** Answers are never empty in the Gemini and the Claude loop *)

Lemma or_placeholder_nonempty (a : string) : or_placeholder a <> "".
Proof. unfold or_placeholder. by destruct (String.eqb_spec a ""). Qed.

Lemma gemini_turn_answer req n r es a :
  gemini_turn req n r = (es, inl (Returned a)) -> a <> "".
Proof.
  unfold gemini_turn. destruct r as [e|body|res]; try discriminate.
  destruct (head _) as [cand|]; [|discriminate].
  destruct (find_functionCall _) as [[fc call]|].
  - destruct (String.eqb _ _).
    + destruct (callRandomIntTool _ _); discriminate.
    + intros [= _ <-]. apply or_placeholder_nonempty.
  - intros [= _ <-]. apply or_placeholder_nonempty.
Qed.

Lemma claude_turn_answer msgs n r es a :
  claude_turn msgs n r = (es, inl (Returned a)) -> a <> "".
Proof.
  unfold claude_turn. destruct r as [e|body|res]; try discriminate.
  destruct (String.eqb _ _).
  - destruct (tool_uses _); [discriminate|].
    destruct (start_tool_uses _ _) as [es' promises].
    destruct (promise_all promises); [discriminate|].
    destruct (unhandled_uses _ _); discriminate.
  - intros [= _ <-]. apply or_placeholder_nonempty.
Qed.

Lemma gemini_loop_answer script req n a :
  outcome (gemini_loop script req n) = Returned a -> a <> "".
Proof.
  revert req n. induction script as [|r script IH]; intros req n; [discriminate|].
  cbn [gemini_loop]. destruct (gemini_turn req n r) as [es [o|req']] eqn:Hturn; simpl.
  - intros ->. by apply (gemini_turn_answer _ _ _ _ _ Hturn).
  - apply IH.
Qed.

Lemma claude_loop_answer hops script msgs n a :
  outcome (claude_loop hops script msgs n) = Returned a -> a <> "".
Proof.
  revert script msgs n. induction hops as [|hops IH]; intros script msgs n; [discriminate|].
  destruct script as [|r script]; [discriminate|].
  cbn [claude_loop]. destruct (claude_turn msgs n r) as [es [o|msgs']] eqn:Hturn; simpl.
  - intros ->. by apply (claude_turn_answer _ _ _ _ _ Hturn).
  - apply IH.
Qed.

(** ** A run that has ended *)

Lemma openai_loop_ended script more req n :
  outcome (openai_loop script req n) <> Pending ->
  openai_loop (script ++ more) req n = openai_loop script req n.
Proof.
  revert req n. induction script as [|r script IH]; intros req n; [done|].
  cbn [openai_loop app]. destruct (openai_turn req n r) as [es [o|req']]; [done|].
  simpl. intros H. by rewrite IH.
Qed.

Lemma gemini_loop_ended script more req n :
  outcome (gemini_loop script req n) <> Pending ->
  gemini_loop (script ++ more) req n = gemini_loop script req n.
Proof.
  revert req n. induction script as [|r script IH]; intros req n; [done|].
  cbn [gemini_loop app]. destruct (gemini_turn req n r) as [es [o|req']]; [done|].
  simpl. intros H. by rewrite IH.
Qed.

Lemma claude_loop_ended hops script more msgs n :
  outcome (claude_loop hops script msgs n) <> Pending ->
  claude_loop hops (script ++ more) msgs n = claude_loop hops script msgs n.
Proof.
  revert script msgs n. induction hops as [|hops IH]; intros script msgs n; [done|].
  destruct script as [|r script]; [done|].
  cbn [claude_loop app]. destruct (claude_turn msgs n r) as [es [o|msgs']]; [done|].
  simpl. intros H. by rewrite IH.
Qed.

End Conversations.

(** X17.  The conversation sent to a vendor only grows.  The first request
    of a run is the seeded conversation (for OpenAI the system message, then
    the history in order, then the prompt as a user message), and the
    [i]-th request after it is that same conversation followed by [2 * i]
    further entries: nothing sent before is ever dropped or rewritten. *)
Theorem conversation_append_only {host : Host} (k1 k2 k3 : option string)
    (prompt : string) (history : list ChatMessage) :
  missing k1 = false -> missing k2 = false -> missing k3 = false ->
  (forall script,
      let seed := OPlain "system" "You are a helpful assistant."
                    :: map openai_plain history ++ [OPlain "user" prompt] in
      let requests := requests_of (trace (chatWithOpenAITools k1 prompt history script)) in
      requests !! 0%nat = Some seed
      /\ forall i r, requests !! i = Some r ->
           exists ext, r = seed ++ ext /\ length ext = (2 * i)%nat)
  /\ (forall script,
      let seed := map gemini_plain history ++ [GPlain "user" prompt] in
      let requests := requests_of (trace (chatWithGeminiTools k2 prompt history script)) in
      requests !! 0%nat = Some seed
      /\ forall i r, requests !! i = Some r ->
           exists ext, r = seed ++ ext /\ length ext = (2 * i)%nat)
  /\ (forall script,
      let seed := map claude_plain history ++ [CPlain "user" prompt] in
      let requests := requests_of (trace (chatWithClaudeTools k3 prompt history script)) in
      requests !! 0%nat = Some seed
      /\ forall i r, requests !! i = Some r ->
           exists ext, r = seed ++ ext /\ length ext = (2 * i)%nat).
Proof.
  intros H1 H2 H3. split; [|split]; intros script; cbv zeta.
  - unfold chatWithOpenAITools. rewrite H1.
    split; [apply openai_loop_first | apply openai_requests_extend].
  - unfold chatWithGeminiTools. rewrite H2.
    split; [apply gemini_loop_first | apply gemini_requests_extend].
  - unfold chatWithClaudeTools. rewrite H3.
    split; [apply (claude_loop_first 2) | apply claude_requests_extend].
Qed.

Lemma conversation_append_only_witness :
  let history := [ {| role := "user"; content := "hello" |};
                   {| role := "assistant"; content := "hi" |} ] in
  (forall script,
      let seed := OPlain "system" "You are a helpful assistant."
                    :: map openai_plain history ++ [OPlain "user" "roll"] in
      let requests := requests_of (trace (chatWithOpenAITools (host := Scenarios.seven)
                                            (Some "k1") "roll" history script)) in
      requests !! 0%nat = Some seed
      /\ forall i r, requests !! i = Some r ->
           exists ext, r = seed ++ ext /\ length ext = (2 * i)%nat)
  /\ (forall script,
      let seed := map gemini_plain history ++ [GPlain "user" "roll"] in
      let requests := requests_of (trace (chatWithGeminiTools (host := Scenarios.seven)
                                            (Some "k2") "roll" history script)) in
      requests !! 0%nat = Some seed
      /\ forall i r, requests !! i = Some r ->
           exists ext, r = seed ++ ext /\ length ext = (2 * i)%nat)
  /\ (forall script,
      let seed := map claude_plain history ++ [CPlain "user" "roll"] in
      let requests := requests_of (trace (chatWithClaudeTools (host := Scenarios.seven)
                                            (Some "k3") "roll" history script)) in
      requests !! 0%nat = Some seed
      /\ forall i r, requests !! i = Some r ->
           exists ext, r = seed ++ ext /\ length ext = (2 * i)%nat).
Proof.
  intros history.
  apply (conversation_append_only (host := Scenarios.seven)
           (Some "k1") (Some "k2") (Some "k3") "roll" history); reflexivity.
Defined.

(** X18.  In the OpenAI and the Gemini loop a run never makes more tool
    calls than it sends requests, and sends at most one request more than
    the vendor has replies; a run that returns an answer (or is waiting for
    a reply) has sent exactly one request more than it made tool calls. *)
Theorem requests_and_tool_calls {host : Host} (k1 k2 : option string) (prompt : string)
    (history : list ChatMessage) :
  (forall script,
      let run := chatWithOpenAITools k1 prompt history script in
      (length (tool_calls_of (trace run)) <= length (requests_of (trace run)))%nat
      /\ (length (requests_of (trace run)) <= S (length script))%nat
      /\ ((exists a, outcome run = Returned a) ->
          length (requests_of (trace run)) = S (length (tool_calls_of (trace run)))))
  /\ (forall script,
      let run := chatWithGeminiTools k2 prompt history script in
      (length (tool_calls_of (trace run)) <= length (requests_of (trace run)))%nat
      /\ (length (requests_of (trace run)) <= S (length script))%nat
      /\ ((exists a, outcome run = Returned a) ->
          length (requests_of (trace run)) = S (length (tool_calls_of (trace run))))).
Proof.
  split; intros script; cbv zeta; [unfold chatWithOpenAITools | unfold chatWithGeminiTools].
  - destruct (missing k1).
    + simpl. split; [lia|]. split; [lia|]. intros [a H]. discriminate.
    + destruct (openai_counts script
                  ([OPlain "system" "You are a helpful assistant."]
                     ++ map (fun m => OPlain (role m) (content m)) history
                     ++ [OPlain "user" prompt]) 0) as (A & B & C).
      split; [exact A|]. split; [exact B|]. intros H. apply C. by right.
  - destruct (missing k2).
    + simpl. split; [lia|]. split; [lia|]. intros [a H]. discriminate.
    + destruct (gemini_counts script
                  (map (fun m => GPlain (role m) (content m)) history
                     ++ [GPlain "user" prompt]) 0) as (A & B & C).
      split; [exact A|]. split; [exact B|]. intros H. apply C. by right.
Qed.

(** X19.  A run of the Claude loop sends at most three requests to the
    vendor, whatever the vendor replies and whatever the tools do. *)
Theorem claude_at_most_three_requests {host : Host} (apiKey : option string)
    (prompt : string) (history : list ChatMessage) (script : list (Fetched ClaudeResponse)) :
  (length (requests_of (trace (chatWithClaudeTools apiKey prompt history script))) <= 3)%nat.
Proof.
  unfold chatWithClaudeTools. destruct (missing apiKey); [simpl; lia|].
  apply claude_loop_requests.
Qed.

(** X20.  The Gemini and the Claude loop never return the empty string as
    an answer. *)
Theorem answers_never_empty {host : Host} (apiKey : option string) (prompt : string)
    (history : list ChatMessage) :
  (forall script a,
      outcome (chatWithGeminiTools apiKey prompt history script) = Returned a -> a <> "")
  /\ (forall script a,
      outcome (chatWithClaudeTools apiKey prompt history script) = Returned a -> a <> "").
Proof.
  unfold chatWithGeminiTools, chatWithClaudeTools.
  split; intros script a; (destruct (missing apiKey); [discriminate|]).
  - apply gemini_loop_answer.
  - apply claude_loop_answer.
Qed.

(** X21.  A run that has ended, with an answer or with an error, does not
    depend on what the vendor would have replied afterwards: the replies
    left in the script are never fetched. *)
Theorem ended_run_ignores_later_replies {host : Host} (apiKey : option string)
    (prompt : string) (history : list ChatMessage) :
  (forall script more,
      outcome (chatWithOpenAITools apiKey prompt history script) <> Pending ->
      chatWithOpenAITools apiKey prompt history (script ++ more)
      = chatWithOpenAITools apiKey prompt history script)
  /\ (forall script more,
      outcome (chatWithGeminiTools apiKey prompt history script) <> Pending ->
      chatWithGeminiTools apiKey prompt history (script ++ more)
      = chatWithGeminiTools apiKey prompt history script)
  /\ (forall script more,
      outcome (chatWithClaudeTools apiKey prompt history script) <> Pending ->
      chatWithClaudeTools apiKey prompt history (script ++ more)
      = chatWithClaudeTools apiKey prompt history script).
Proof.
  unfold chatWithOpenAITools, chatWithGeminiTools, chatWithClaudeTools.
  split; [|split]; intros script more; (destruct (missing apiKey); [done|]).
  - apply openai_loop_ended.
  - apply gemini_loop_ended.
  - apply claude_loop_ended.
Qed.

(** ** Tool requests that share an identifier *)

Lemma filter_none {A} (f : A -> bool) (l : list A) :
  List.filter f l = [] <-> forall x, x ∈ l -> f x = false.
Proof.
  induction l as [|a l IH]; simpl.
  - split; [intros _ x Hx; by apply elem_of_nil in Hx | done].
  - destruct (f a) eqn:Ha; split.
    + discriminate.
    + intros H. specialize (H a (list_elem_of_here _ _)). congruence.
    + intros H x Hx. apply elem_of_cons in Hx as [->|Hx]; [done|]. by apply IH.
    + intros H. apply IH. intros x Hx. apply H. by apply list_elem_of_further.
Qed.

Lemma unhandled_none (uses : list ToolUse) (toolResults : list (option ToolResult)) :
  Forall2 answers uses toolResults ->
  unhandled_uses uses (omap id toolResults) = []
  <-> forall u, u ∈ uses ->
        exists u', u' ∈ uses /\ use_name u' = "randomInt" /\ use_id u' = use_id u.
Proof.
  intros Hres. unfold unhandled_uses. rewrite filter_none.
  split; intros H u Hu; specialize (H u Hu).
  - apply negb_false_iff, existsb_exists in H as (v & Hv & Hid).
    apply String.eqb_eq in Hid.
    apply list_elem_of_In, list_elem_of_omap in Hv as (r & Hr & Hrv).
    simpl in Hrv. subst r.
    destruct (block_for_answer _ _ _ Hres Hr) as (u' & Hu' & Hname & Hid').
    exists u'. split; [done|]. split; [done | congruence].
  - destruct H as (u' & Hu' & Hname & Hid).
    apply negb_false_iff, existsb_exists.
    destruct (answers_for_block _ _ _ Hres Hu') as ([v|] & Hr & Ha); [|done].
    destruct Ha as [_ Hv]. exists v. split.
    + apply list_elem_of_In, list_elem_of_omap. by exists (Some v).
    + apply String.eqb_eq. congruence.
Qed.

(** X22.  When no tool call fails, a Claude turn on a tool-use response
    goes on to the next request exactly when every [tool_use] block bears
    the identifier of some [randomInt] block of the response.  So a block
    for another tool is reported as unhandled unless it shares its
    identifier with a [randomInt] block, in which case it is passed over. *)
Theorem claude_turn_goes_on {host : Host} (msgs : list ClaudeEntry) (n : nat)
    (res : ClaudeResponse) :
  (forall k a, exists out, callTool k a = inr out) ->
  stop_reason res = "tool_use" ->
  tool_uses (default [] (res_content res)) <> [] ->
  (exists msgs', snd (claude_turn msgs n (Ok res)) = inr msgs')
  <-> forall u, u ∈ tool_uses (default [] (res_content res)) ->
        exists u', u' ∈ tool_uses (default [] (res_content res))
                   /\ use_name u' = "randomInt" /\ use_id u' = use_id u.
Proof.
  intros Htools Hstop Hne. unfold claude_turn. rewrite Hstop.
  change (String.eqb "tool_use" "tool_use") with true. cbv iota zeta.
  remember (tool_uses (default [] (res_content res))) as uses eqn:Euses. clear Euses.
  destruct uses as [|u0 uses']; [done|]. clear Hne.
  remember (u0 :: uses') as uses eqn:Euses. clear Euses u0 uses'.
  pose proof (start_tool_uses_results uses n) as Hres.
  destruct (start_tool_uses_fulfilled uses n Htools) as [toolResults Hall].
  destruct (start_tool_uses uses n) as [es promises]. cbn [snd] in *.
  rewrite Hall. specialize (Hres _ Hall).
  rewrite <- (unhandled_none uses toolResults Hres).
  destruct (unhandled_uses uses (omap id toolResults)); simpl; split;
    try done; eauto.
  by intros [msgs' H].
Qed.

Lemma claude_turn_goes_on_witness :
  let res := {| res_content := Some [ BToolUse "toolu_1" "randomInt" (JObj []);
                                      BToolUse "toolu_1" "lookup" JNull ];
                stop_reason := "tool_use" |} in
  (exists msgs', snd (claude_turn (host := Scenarios.seven) [] 0 (Ok res)) = inr msgs')
  <-> forall u, u ∈ tool_uses (default [] (res_content res)) ->
        exists u', u' ∈ tool_uses (default [] (res_content res))
                   /\ use_name u' = "randomInt" /\ use_id u' = use_id u.
Proof.
  intros res.
  apply (claude_turn_goes_on (host := Scenarios.seven) [] 0%nat res);
    [intros k a; eexists; reflexivity | reflexivity | discriminate].
Defined.

Lemma requests_and_tool_calls_witness :
  let run := Scenarios.openai Scenarios.openai_four in
  length (requests_of (trace run)) = S (length (tool_calls_of (trace run))).
Proof.
  intros run.
  destruct (requests_and_tool_calls (host := Scenarios.seven)
              (Some "sk-test") (Some "g-test") "pick a number" []) as [HO _].
  destruct (HO Scenarios.openai_four) as (_ & _ & H).
  apply H. by exists "done".
Defined.

Lemma answers_never_empty_witness : "(no response)" <> "".
Proof.
  destruct (answers_never_empty (host := Scenarios.seven)
              (Some "g-test") "pick a number" []) as [HG _].
  apply (HG [Scenarios.gemini_says ""] "(no response)"). reflexivity.
Defined.

Lemma ended_run_ignores_later_replies_witness :
  Scenarios.claude (Scenarios.claude_four ++ [Scenarios.claude_says "more"])
  = Scenarios.claude Scenarios.claude_four.
Proof.
  destruct (ended_run_ignores_later_replies (host := Scenarios.seven)
              (Some "c-test") "pick a number" []) as (_ & _ & HC).
  apply (HC Scenarios.claude_four [Scenarios.claude_says "more"]). discriminate.
Defined.

(** ** Witnesses for the lemmas on hop limits *)

Lemma seven_answers (k : nat) (a : option json) :
  exists out, callTool (Host := Scenarios.seven) k a = inr out.
Proof. eexists. reflexivity. Qed.

Lemma claude_hop_limit_witness :
  let u (id : string) := {| use_id := id; use_name := "randomInt"; use_input := JObj [] |} in
  let run := chatWithClaudeTools (host := Scenarios.seven) (Some "c-test") "pick a number" []
               (Scenarios.claude_asks [BToolUse "toolu_1" "randomInt" (JObj [])]
                  :: Scenarios.claude_asks [BText "again"; BToolUse "toolu_2" "randomInt" (JObj [])]
                  :: Scenarios.claude_asks [BToolUse "toolu_3" "randomInt" (JObj [])]
                  :: [Scenarios.claude_says "never read"]) in
  outcome run = Thrown (Error "Too many tool-calling hops")
  /\ tool_calls_of (trace run)
     = [Some (use_input (u "toolu_1")); Some (use_input (u "toolu_2"));
        Some (use_input (u "toolu_3"))]
  /\ length (requests_of (trace run)) = 3%nat.
Proof.
  intros u.
  apply (claude_hop_limit (host := Scenarios.seven) (Some "c-test") "pick a number" []
           [BToolUse "toolu_1" "randomInt" (JObj [])]
           [BText "again"; BToolUse "toolu_2" "randomInt" (JObj [])]
           [BToolUse "toolu_3" "randomInt" (JObj [])]
           (u "toolu_1") (u "toolu_2") (u "toolu_3")
           [Scenarios.claude_says "never read"] seven_answers);
    reflexivity.
Defined.

Lemma openai_no_hop_limit_witness :
  let calls := map (fun id => Scenarios.openai_call id "randomInt")
                   ["c1"; "c2"; "c3"; "c4"; "c5"; "c6"] in
  let run := openai_loop (host := Scenarios.seven)
               (map (fun c => Scenarios.openai_asks [c]) calls
                  ++ [Scenarios.openai_says (Some "six")]) [] 0 in
  outcome run = Returned "six"
  /\ length (tool_calls_of (trace run)) = length calls.
Proof.
  intros calls.
  apply (openai_no_hop_limit (host := Scenarios.seven) calls "six" [] 0%nat seven_answers).
  repeat constructor; exists (JObj []); reflexivity.
Defined.

Lemma gemini_no_hop_limit_witness :
  let asks := replicate 6 (Scenarios.gemini_call "randomInt") in
  let run := gemini_loop (host := Scenarios.seven)
               (map (fun p => Scenarios.gemini_replies [p]) asks
                  ++ [Scenarios.gemini_says "six"]) [] 0 in
  outcome run = Returned (or_placeholder "six")
  /\ length (tool_calls_of (trace run)) = length asks.
Proof.
  intros asks.
  apply (gemini_no_hop_limit (host := Scenarios.seven) asks "six" [] 0%nat seven_answers).
  repeat constructor; eexists; split; reflexivity.
Defined.

End LoopProps.

(** * The correlation token of a tool result *)
Module TokenProps.
Import Llm LlmProps LoopProps.

Section Results.

Context {host : Host}.

Lemma promise_all_values {A} (l : list A) : promise_all (map inr l) = inr l.
Proof.
  induction l as [|a l IH]; [reflexivity|].
  cbn [map]. by rewrite promise_all_fulfilled, IH.
Qed.

(** When the tool answers, the blocks of a response that all ask for
    [randomInt] each start a call, and the promise at a position is
    fulfilled with the value of that call under the identifier of the block
    at that position. *)
Lemma start_tool_uses_randomInt (uses : list ToolUse) (n : nat) :
  (forall k a, exists out, callTool k a = inr out) ->
  Forall (fun u => use_name u = "randomInt") uses ->
  exists toolResults,
    start_tool_uses uses n
    = (map (fun u => ToolCall (Some (use_input u))) uses, map inr toolResults)
    /\ length toolResults = length uses
    /\ forall i u, uses !! i = Some u ->
         exists rand,
           callRandomIntTool (n + i) (Some (use_input u)) = inr rand
           /\ toolResults !! i
              = Some (Some {| tool_use_id := use_id u; result_content := rand |}).
Proof.
  intros Htools Hall. revert n. induction Hall as [|u uses Hname _ IH]; intros n.
  - exists []. split; [reflexivity|]. split; [reflexivity|]. intros i u Hi. discriminate.
  - destruct (IH (S n)) as (l & Hl & Hlen & Hi).
    destruct (Htools n (Some (use_input u))) as [out Hout].
    destruct (callRandomIntTool_ok _ _ _ Hout) as [rand Hrand].
    exists (Some {| tool_use_id := use_id u; result_content := rand |} :: l).
    split; [|split].
    + cbn [start_tool_uses]. rewrite Hname.
      change (String.eqb "randomInt" "randomInt") with true. cbv iota.
      by rewrite Hrand, Hl.
    + cbn [length]. by rewrite Hlen.
    + intros [|i] u' Hu'.
      * injection Hu' as <-. exists rand. by rewrite Nat.add_0_r.
      * destruct (Hi i u' Hu') as (rand' & Hr & Hlk). exists rand'.
        by rewrite Nat.add_succ_r.
Qed.

(** A Claude turn on such a response goes on, with these results. *)
Lemma claude_turn_randomInt (msgs : list ClaudeEntry) (n : nat) (res : ClaudeResponse) :
  (forall k a, exists out, callTool k a = inr out) ->
  stop_reason res = "tool_use" ->
  tool_uses (default [] (res_content res)) <> [] ->
  Forall (fun u => use_name u = "randomInt") (tool_uses (default [] (res_content res))) ->
  exists toolResults,
    claude_turn msgs n (Ok res)
    = (map (fun u => ToolCall (Some (use_input u))) (tool_uses (default [] (res_content res))),
       inr (msgs ++ [CAssistant (default [] (res_content res)); CUser toolResults]))
    /\ length toolResults = length (tool_uses (default [] (res_content res)))
    /\ forall i u, tool_uses (default [] (res_content res)) !! i = Some u ->
         exists rand,
           callRandomIntTool (n + i) (Some (use_input u)) = inr rand
           /\ toolResults !! i
              = Some (Some {| tool_use_id := use_id u; result_content := rand |}).
Proof.
  intros Htools Hstop Hne Hnames. unfold claude_turn. rewrite Hstop.
  change (String.eqb "tool_use" "tool_use") with true. cbv iota zeta.
  remember (tool_uses (default [] (res_content res))) as uses eqn:Euses. clear Euses.
  destruct uses as [|u0 uses']; [done|]. clear Hne.
  remember (u0 :: uses') as uses eqn:Euses. clear Euses u0 uses'.
  destruct (start_tool_uses_randomInt uses n Htools Hnames) as (toolResults & Hstart & Hrest).
  exists toolResults. split; [|exact Hrest].
  pose proof (start_tool_uses_results uses n toolResults) as Hres.
  rewrite Hstart in Hres |- *. cbn [snd] in Hres.
  rewrite promise_all_values in Hres |- *. specialize (Hres eq_refl).
  assert (Hun : unhandled_uses uses (omap id toolResults) = []).
  { apply (unhandled_none uses toolResults Hres). intros u Hu. exists u.
    split; [exact Hu|]. split; [|reflexivity].
    by apply (proj1 (Forall_forall _ _) Hnames). }
  by rewrite Hun.
Qed.

End Results.

(** C9.  The tool result appended to the conversation bears the correlation
    token of the request it answers, and the next request sent to the vendor
    is that conversation.  OpenAI: when the first call of a response names
    [randomInt] and the tool answers, the second request is the first
    followed by the message that made the call and a [tool] message whose
    [tool_call_id] is the [id] of the call.  Claude: when the blocks of a
    tool-use response ask for [randomInt] and the tool answers, the second
    request is the first followed by the echoed blocks and one result for
    each block, in block order, whose [tool_use_id] is the [id] of the block
    at its position and whose content is what the tool returned for that
    block.  Gemini, which has no token: the function response bears the name
    of the call and follows the echoed call. *)
Theorem tool_result_token {host : Host} :
  (forall req n msg others call rest args rand script,
      msg_tool_calls msg = call :: rest ->
      function_name call = "randomInt" ->
      JSON_parse (if String.eqb (function_arguments call) ""
                  then "{}" else function_arguments call) = inr args ->
      callRandomIntTool n (Some args) = inr rand ->
      requests_of (trace (openai_loop (Ok {| choices := Some msg :: others |} :: script)
                            req n)) !! 1%nat
      = Some (req ++ [OAssistant msg; OTool rand (call_id call)]))
  /\ (forall req n cand others fc call rand script,
      find_functionCall (default [] (content_parts cand)) = Some (fc, call) ->
      fc_name call = "randomInt" ->
      callRandomIntTool n (fc_args call) = inr rand ->
      requests_of (trace (gemini_loop (Ok {| candidates := cand :: others |} :: script)
                            req n)) !! 1%nat
      = Some (req ++ [GModel fc; GTool (fc_name call) (Number rand)]))
  /\ (forall hops msgs n res script,
      (forall k a, exists out, callTool k a = inr out) ->
      stop_reason res = "tool_use" ->
      tool_uses (default [] (res_content res)) <> [] ->
      Forall (fun u => use_name u = "randomInt") (tool_uses (default [] (res_content res))) ->
      exists toolResults,
        requests_of (trace (claude_loop (S (S hops)) (Ok res :: script) msgs n)) !! 1%nat
        = Some (msgs ++ [CAssistant (default [] (res_content res)); CUser toolResults])
        /\ length toolResults = length (tool_uses (default [] (res_content res)))
        /\ forall i u, tool_uses (default [] (res_content res)) !! i = Some u ->
             exists rand,
               callRandomIntTool (n + i) (Some (use_input u)) = inr rand
               /\ toolResults !! i
                  = Some (Some {| tool_use_id := use_id u; result_content := rand |})).
Proof.
  split; [|split].
  - intros req n msg others call rest args rand script Hcalls Hname Hparse Hrand.
    apply (openai_loop_second _ _ _ _ [ToolCall (Some args)]).
    by apply (openai_turn_first_call _ _ _ _ _ rest).
  - intros req n cand others fc call rand script Hfind Hname Hrand.
    apply (gemini_loop_second _ _ _ _ [ToolCall (fc_args call)]).
    by apply gemini_turn_first_call.
  - intros hops msgs n res script Htools Hstop Hne Hnames.
    destruct (claude_turn_randomInt msgs n res Htools Hstop Hne Hnames)
      as (toolResults & Hturn & Hrest).
    exists toolResults. split; [|exact Hrest].
    exact (claude_loop_second _ _ _ _ _ _ _ Hturn).
Qed.

Lemma tool_result_token_witness :
  let asked := {| msg_content := None;
                  msg_tool_calls := [Scenarios.openai_call "call_1" "randomInt"] |} in
  let res := {| res_content := Some [ BToolUse "toolu_1" "randomInt" (JObj []);
                                      BText "and another";
                                      BToolUse "toolu_2" "randomInt" (JInt 6) ];
                stop_reason := "tool_use" |} in
  requests_of (trace (openai_loop (host := Scenarios.seven)
                        [Ok {| choices := [Some asked] |}] [OPlain "user" "roll"] 0))
    !! 1%nat
  = Some ([OPlain "user" "roll"] ++ [OAssistant asked; OTool "7" "call_1"])
  /\ requests_of (trace (gemini_loop (host := Scenarios.seven)
                           [Scenarios.gemini_replies [Scenarios.gemini_call "randomInt"]]
                           [GPlain "user" "roll"] 0))
       !! 1%nat
     = Some ([GPlain "user" "roll"]
               ++ [GModel (Scenarios.gemini_call "randomInt");
                   GTool "randomInt" (Num (inject_Z 7))])
  /\ exists toolResults,
       requests_of (trace (claude_loop (host := Scenarios.seven) 3
                             [Ok res; Scenarios.claude_says "done"]
                             [CPlain "user" "roll"] 0)) !! 1%nat
       = Some ([CPlain "user" "roll"]
                 ++ [CAssistant (default [] (res_content res)); CUser toolResults])
       /\ length toolResults = length (tool_uses (default [] (res_content res)))
       /\ forall i u, tool_uses (default [] (res_content res)) !! i = Some u ->
            exists rand,
              callRandomIntTool (host := Scenarios.seven) (0 + i) (Some (use_input u))
              = inr rand
              /\ toolResults !! i
                 = Some (Some {| tool_use_id := use_id u; result_content := rand |}).
Proof.
  intros asked res.
  destruct (@tool_result_token Scenarios.seven) as (HO & HG & HC).
  split; [|split].
  - apply (HO [OPlain "user" "roll"] 0%nat asked []
              (Scenarios.openai_call "call_1" "randomInt") [] (JObj []) "7" []);
      reflexivity.
  - apply (HG [GPlain "user" "roll"] 0%nat
              {| content_parts := Some [Scenarios.gemini_call "randomInt"] |} []
              (Scenarios.gemini_call "randomInt")
              {| fc_name := "randomInt"; fc_args := Some (JObj []) |} "7" []);
      reflexivity.
  - apply (HC 1%nat [CPlain "user" "roll"] 0%nat res [Scenarios.claude_says "done"]).
    + intros k a. eexists. reflexivity.
    + reflexivity.
    + discriminate.
    + repeat constructor.
Defined.

(** The two results of the response above, as the second request holds
    them. *)
Example two_results_two_tokens :
  requests_of (trace (claude_loop (host := Scenarios.seven) 3
                        [ Scenarios.claude_asks [ BToolUse "toolu_1" "randomInt" (JObj []);
                                                  BText "and another";
                                                  BToolUse "toolu_2" "randomInt" (JInt 6) ];
                          Scenarios.claude_says "done" ]
                        [CPlain "user" "roll"] 0)) !! 1%nat
  = Some [ CPlain "user" "roll";
           CAssistant [ BToolUse "toolu_1" "randomInt" (JObj []);
                        BText "and another";
                        BToolUse "toolu_2" "randomInt" (JInt 6) ];
           CUser [ Some {| tool_use_id := "toolu_1"; result_content := "7" |};
                   Some {| tool_use_id := "toolu_2"; result_content := "7" |} ] ].
Proof. by vm_compute. Qed.

End TokenProps.

(** * The chat component *)
Module AppProps.
Import Llm LlmProps App Samples.

Section Component.

Context {host : Host}.
Variable trim : string -> string.

Lemma handleSubmit_run (world : World) (st : State) :
  trim (input st) <> "" ->
  snd (handleSubmit trim world st) = Some (chatDispatcher world st (input st)).
Proof.
  intros H. unfold handleSubmit. destruct (String.eqb_spec (trim (input st)) ""); [done|].
  by destruct (result _).
Qed.

(** A submission whose run ends appends the user's message and one reply. *)
Lemma handleSubmit_settles (world : World) (st : State) :
  trim (input st) <> "" ->
  result (chatDispatcher world st (input st)) <> Pending ->
  exists reply,
    fst (handleSubmit trim world st)
    = {| provider := provider st;
         messages := messages st ++ [ {| role := "user"; content := input st |};
                                      {| role := "assistant"; content := reply |} ];
         input := "";
         loading := false |}.
Proof.
  intros H Hend. unfold handleSubmit.
  destruct (String.eqb_spec (trim (input st)) ""); [done|].
  destruct (result _) as [a|e|]; [| |done]; simpl; rewrite <- app_assoc; eauto.
Qed.

Lemma alternates_two (k : nat) (ms : list ChatMessage) (reply text : string) :
  length ms = (2 * k)%nat -> alternates "user" ms ->
  alternates "user" (ms ++ [ {| role := "user"; content := text |};
                             {| role := "assistant"; content := reply |} ]).
Proof.
  revert ms. induction k as [|k IH]; intros ms Hlen Halt.
  - destruct ms; [|discriminate]. simpl. done.
  - destruct ms as [|a [|b ms]]; simpl in Hlen; try lia.
    destruct Halt as (Ha & Hb & Halt). simpl in *.
    split; [done|]. split; [done|]. apply IH; [lia | done].
Qed.

Lemma submit_all_alternates (turns : list (World * string)) (st : State) (k : nat) :
  (forall world text st0, (world, text) ∈ turns ->
     result (chatDispatcher world st0 text) <> Pending) ->
  length (messages st) = (2 * k)%nat -> alternates "user" (messages st) ->
  let st' := submit_all trim turns st in
  alternates "user" (messages st')
  /\ messages st `prefix_of` messages st'
  /\ length (messages st') = (length (messages st) + 2 * length (submitted trim turns))%nat.
Proof.
  revert st k. induction turns as [|[world text] turns IH]; intros st k Hend Hlen Halt.
  - simpl. split; [done|]. split; [done | unfold submitted; simpl; lia].
  - cbn [submit_all].
    set (typed := {| provider := provider st; messages := messages st;
                     input := text; loading := loading st |}).
    assert (Hend' : forall world text st0, (world, text) ∈ turns ->
                      result (chatDispatcher world st0 text) <> Pending).
    { intros w x st0 Hin. apply Hend. by apply list_elem_of_further. }
    unfold submitted. cbn [map snd List.filter].
    destruct (String.eqb_spec (trim text) "") as [Hblank|Hblank].
    + assert (Hsame : fst (handleSubmit trim world typed) = typed).
      { unfold handleSubmit. simpl. by rewrite Hblank. }
      rewrite Hsame. destruct (IH typed k Hend' Hlen Halt) as (A & B & C).
      by repeat split.
    + destruct (handleSubmit_settles world typed Hblank) as [reply ->].
      { apply Hend. apply list_elem_of_here. }
      simpl.
      match goal with |- context [submit_all trim turns ?s] => set (next := s) end.
      destruct (IH next (S k)) as (A & B & C); [done | | |].
      * simpl. rewrite length_app. simpl. lia.
      * by apply (alternates_two k).
      * simpl in B, C. split; [exact A|]. split.
        -- etrans; [|exact B]. by apply prefix_app_r.
        -- rewrite C, length_app. unfold submitted. simpl. lia.
Qed.

End Component.

(** X26.  A submitted text reaches the vendor exactly as typed, once, as the
    last entry of the first request, after the messages shown so far in
    their order; the new user message the component displays is not sent a
    second time through the history. *)
Theorem submitted_text_sent_last {host : Host} (trim : string -> string)
    (world : World) (st : State) :
  trim (input st) <> "" ->
  (provider st = OPENAI -> missing (VITE_OPENAI_API_KEY world) = false ->
   exists r,
     snd (handleSubmit trim world st) = Some (ViaOpenAI r)
     /\ requests_of (trace r) !! 0%nat
        = Some (OPlain "system" "You are a helpful assistant."
                  :: map openai_plain (messages st) ++ [OPlain "user" (input st)]))
  /\ (provider st = GEMINI -> missing (VITE_GEMINI_API_KEY world) = false ->
   exists r,
     snd (handleSubmit trim world st) = Some (ViaGemini r)
     /\ requests_of (trace r) !! 0%nat
        = Some (map gemini_plain (messages st) ++ [GPlain "user" (input st)])).
Proof.
  intros H. rewrite (handleSubmit_run trim world st H). unfold chatDispatcher.
  split; intros -> Hkey; eexists; (split; [reflexivity|]).
  - unfold chatWithOpenAITools. rewrite Hkey. apply openai_loop_first.
  - unfold chatWithGeminiTools. rewrite Hkey. apply gemini_loop_first.
Qed.

Lemma submitted_text_sent_last_witness :
  let st := {| provider := OPENAI;
               messages := [ {| role := "user"; content := "hello" |};
                             {| role := "assistant"; content := "hi" |} ];
               input := "roll"; loading := false |} in
  (provider st = OPENAI -> missing (VITE_OPENAI_API_KEY talkative) = false ->
   exists r,
     snd (handleSubmit (host := Scenarios.seven) strip_spaces talkative st)
     = Some (ViaOpenAI r)
     /\ requests_of (trace r) !! 0%nat
        = Some (OPlain "system" "You are a helpful assistant."
                  :: map openai_plain (messages st) ++ [OPlain "user" (input st)]))
  /\ (provider st = GEMINI -> missing (VITE_GEMINI_API_KEY talkative) = false ->
   exists r,
     snd (handleSubmit (host := Scenarios.seven) strip_spaces talkative st)
     = Some (ViaGemini r)
     /\ requests_of (trace r) !! 0%nat
        = Some (map gemini_plain (messages st) ++ [GPlain "user" (input st)])).
Proof.
  intros st.
  apply (submitted_text_sent_last (host := Scenarios.seven) strip_spaces talkative st).
  discriminate.
Defined.

(** X27.  Over any number of submissions whose runs end (with an answer or
    an error), the messages shown keep alternating between the user and the
    assistant, starting with the user; earlier messages are never lost or
    changed, and each submission that is not blank adds exactly two
    messages, a blank one none. *)
Theorem conversation_alternates {host : Host} (trim : string -> string)
    (turns : list (World * string)) (st : State) (k : nat) :
  (forall world text st0, (world, text) ∈ turns ->
     result (chatDispatcher world st0 text) <> Pending) ->
  length (messages st) = (2 * k)%nat -> alternates "user" (messages st) ->
  alternates "user" (messages (submit_all trim turns st))
  /\ messages st `prefix_of` messages (submit_all trim turns st)
  /\ length (messages (submit_all trim turns st))
     = (length (messages st) + 2 * length (submitted trim turns))%nat.
Proof. apply submit_all_alternates. Qed.

Lemma talkative_ends (world : World) (text : string) (st0 : State) :
  (world, text) ∈ [(talkative, "hello"); (talkative, "   "); (talkative, "again")] ->
  result (chatDispatcher (host := Scenarios.seven) world st0 text) <> Pending.
Proof.
  intros H. assert (world = talkative) as ->.
  { repeat (apply elem_of_cons in H as [H|H]; [by injection H|]). by apply elem_of_nil in H. }
  unfold chatDispatcher. by destruct (provider st0).
Qed.

Lemma conversation_alternates_witness :
  let turns := [(talkative, "hello"); (talkative, "   "); (talkative, "again")] in
  let st := {| provider := OPENAI; messages := []; input := ""; loading := false |} in
  alternates "user" (messages (submit_all (host := Scenarios.seven) strip_spaces turns st))
  /\ messages st `prefix_of` messages (submit_all (host := Scenarios.seven) strip_spaces turns st)
  /\ length (messages (submit_all (host := Scenarios.seven) strip_spaces turns st))
     = (length (messages st) + 2 * length (submitted strip_spaces turns))%nat.
Proof.
  intros turns st.
  apply (conversation_alternates (host := Scenarios.seven) strip_spaces turns st 0);
    [exact talkative_ends | reflexivity | exact I].
Defined.

End AppProps.
